(** * CQ codes: a shallow embedding of [src/tags.ts]

    The module encodes and decodes the [[CQ:type,key=value,...]] markup.
    This file embeds the escaper, the tokenizer, the tag-token parser,
    the tag object and its two serialisations, and proves properties
    of them.

    Strings are JavaScript strings: finite sequences of UTF-16 code
    units.  Objects live in a store and are handled by reference, as in
    the source; a method is a function from the store to an outcome and
    a new store. *)

From Stdlib Require Import ZArith Lia Bool Ascii String DecimalString.
From stdpp Require Import base option list.

Local Open Scope N_scope.

(** ** Strings *)

Module JsString.

(** A code unit.  The source compares code units only with ASCII
    characters and with the range [a-z]; no arithmetic is done on them. *)
Definition char : Type := N.
Definition jsstring : Type := list char.

(** The string literal of the source, as a sequence of code units. *)
Definition str (s : string) : jsstring :=
  List.map N_of_ascii (list_ascii_of_string s).

(** [a === b] on strings. *)
Fixpoint jsstring_eqb (a b : jsstring) : bool :=
  match a, b with
  | [], [] => true
  | x :: a', y :: b' => N.eqb x y && jsstring_eqb a' b'
  | _, _ => false
  end.

Definition is_empty (s : jsstring) : bool :=
  match s with [] => true | _ :: _ => false end.

(** [s.startsWith(pat)]: [pat] occurs in [s] at index 0. *)
Fixpoint startsWith (pat s : jsstring) : bool :=
  match pat, s with
  | [], _ => true
  | _ :: _, [] => false
  | p :: pat', c :: s' => N.eqb p c && startsWith pat' s'
  end.

(** [s.includes(pat)]: [pat] occurs in [s] at some index. *)
Fixpoint includes (pat s : jsstring) : bool :=
  startsWith pat s ||
  match s with
  | [] => false
  | _ :: s' => includes pat s'
  end.

(** [s.replace(/pat/g, rep)] for a regular expression that is a literal,
    non-empty sequence of characters and a replacement without [$]: the
    scan goes left to right, a match is replaced and the scan resumes
    after it, anything else is copied.  [skip] counts the code units of
    the current match that are still to be consumed. *)
Fixpoint replace_from (pat rep : jsstring) (skip : nat) (s : jsstring)
  : jsstring :=
  match s with
  | [] => []
  | c :: s' =>
      match skip with
      | S k => replace_from pat rep k s'
      | O =>
          if startsWith pat s
          then rep ++ replace_from pat rep (Nat.pred (length pat)) s'
          else c :: replace_from pat rep 0 s'
      end
  end.

Definition replaceAll (pat rep s : jsstring) : jsstring :=
  replace_from pat rep 0 s.

End JsString.
Import JsString.

(** ** The escaper *)

Module CQ_escaper.

(** [CQ.escape(str, insideCQ)], lines 121-130. *)
Definition escape (s : jsstring) (insideCQ : bool) : jsstring :=
  let temp :=
    replaceAll (str "]") (str "&#93;")
      (replaceAll (str "[") (str "&#91;")
         (replaceAll (str "&") (str "&amp;") s)) in
  if insideCQ then replaceAll (str ",") (str "&#44;") temp else temp.

(** [CQ.unescape(str)], lines 137-142. *)
Definition unescape (s : jsstring) : jsstring :=
  replaceAll (str "&amp;") (str "&")
    (replaceAll (str "&#93;") (str "]")
       (replaceAll (str "&#91;") (str "[")
          (replaceAll (str "&#44;") (str ",") s))).

End CQ_escaper.
Import CQ_escaper.

(** ** Values and objects *)

Module JsObject.

(** The values an attribute holds in this model: the primitive values.
    A number is an integer below 10^21 in absolute value, which
    JavaScript prints as its decimal numeral.  Attributes that hold
    objects (the nested tag array of a [node]) are outside the model. *)
Inductive value : Type :=
| VUndefined
| VNull
| VBool (b : bool)
| VNum (z : Z)
| VStr (s : jsstring).

Definition Number_toString (z : Z) : jsstring :=
  str (NilZero.string_of_int (Z.to_int z)).

(** The conversion of a template literal [${v}]. *)
Definition ToString (v : value) : jsstring :=
  match v with
  | VUndefined => str "undefined"
  | VNull => str "null"
  | VBool true => str "true"
  | VBool false => str "false"
  | VNum z => Number_toString z
  | VStr s => s
  end.

(** [v === undefined] *)
Definition is_undefined (v : value) : bool :=
  match v with VUndefined => true | _ => false end.

Definition is_null (v : value) : bool :=
  match v with VNull => true | _ => false end.

(** [v == null] *)
Definition is_nullish (v : value) : bool :=
  match v with VUndefined | VNull => true | _ => false end.

Abbreviation key := jsstring (only parsing).

(** An array index: the canonical decimal numeral of an integer below
    2^32 - 1.  An object enumerates such keys first, in ascending
    numeric order, and its other keys after them, in the order of their
    creation. *)
Definition digit (c : char) : bool := N.leb 48 c && N.leb c 57.

Definition decimal (s : jsstring) : N :=
  fold_left (fun n c => 10 * n + (c - 48)) s 0.

Definition array_index (k : key) : option N :=
  match k with
  | [] => None
  | c :: r =>
      if forallb digit k
         && (negb (N.eqb c 48) || match r with [] => true | _ => false end)
         && N.ltb (decimal k) 4294967295
      then Some (decimal k) else None
  end.

(** The own properties of an object, all of them enumerable data
    properties, kept in the order in which the object enumerates them. *)
Abbreviation properties := (list (jsstring * value)) (only parsing).

Fixpoint has_property (k : key) (ps : properties) : bool :=
  match ps with
  | [] => false
  | (k', _) :: ps' => jsstring_eqb k' k || has_property k ps'
  end.

(** [o[k]] for an own property; [undefined] when there is none. *)
Fixpoint get_property (k : key) (ps : properties) : value :=
  match ps with
  | [] => VUndefined
  | (k', v) :: ps' => if jsstring_eqb k' k then v else get_property k ps'
  end.

Fixpoint update_property (k : key) (v : value) (ps : properties)
  : properties :=
  match ps with
  | [] => []
  | (k', v') :: ps' =>
      if jsstring_eqb k' k then (k', v) :: ps'
      else (k', v') :: update_property k v ps'
  end.

(** A new array index goes before the first key that is not an array
    index or is a larger one. *)
Fixpoint insert_index (n : N) (k : key) (v : value) (ps : properties)
  : properties :=
  match ps with
  | [] => [(k, v)]
  | (k', v') :: ps' =>
      match array_index k' with
      | Some n' =>
          if N.ltb n' n then (k', v') :: insert_index n k v ps'
          else (k, v) :: ps
      | None => (k, v) :: ps
      end
  end.

Definition add_property (k : key) (v : value) (ps : properties)
  : properties :=
  match array_index k with
  | Some n => insert_index n k v ps
  | None => ps ++ [(k, v)]
  end.

(** [CreateDataProperty]: what an object literal and
    [Object.fromEntries] do for each of their entries. *)
Definition define_property (k : key) (v : value) (ps : properties)
  : properties :=
  if has_property k ps then update_property k v ps else add_property k v ps.

(** [delete o[k]] *)
Definition delete_property (k : key) (ps : properties) : properties :=
  List.filter (fun kv => negb (jsstring_eqb (fst kv) k)) ps.

(** An object: its own properties and whether its prototype is
    [Object.prototype] (as for every object the module creates) or has
    been set to [null]. *)
Record object : Type := Obj {
  has_Object_prototype : bool;
  props : properties
}.

Definition empty_object : object := Obj true [].

(** The object literal [{k1: v1, ...}] and [Object.fromEntries]. *)
Definition object_of (entries : list (key * value)) : object :=
  Obj true (fold_left (fun ps kv => define_property (fst kv) (snd kv) ps)
              entries []).

(** [o[k] = v] as [Object.assign] does it on its target.  A key that is
    not an own property is looked up in the prototype: of the members of
    [Object.prototype] only [__proto__] is an accessor, and its setter
    replaces the prototype when [v] is [null] (or an object) and ignores
    any other value; for every other key an own property is created. *)
Definition Set_property (k : key) (v : value) (o : object) : object :=
  if has_property k (props o)
  then Obj (has_Object_prototype o) (update_property k v (props o))
  else if has_Object_prototype o && jsstring_eqb k (str "__proto__")
  then match v with
       | VNull => Obj false (props o)
       | _ => o
       end
  else Obj (has_Object_prototype o) (add_property k v (props o)).

End JsObject.
Import JsObject.

(** ** The store and the monad of methods *)

Module Heap.

(** A location is an index of the store. *)
Abbreviation loc := nat (only parsing).
Abbreviation store := (list object) (only parsing).

Inductive error : Type := TypeError | RangeError.

(** [Dangling] is no behaviour of JavaScript, where a reference always
    denotes a live object; it is the outcome of reading a location the
    store does not have. *)
Inductive outcome (A : Type) : Type :=
| Returns (a : A)
| Throws (e : error)
| Dangling.
Arguments Returns {A} a.
Arguments Throws {A} e.
Arguments Dangling {A}.

Definition M (A : Type) : Type := store -> outcome A * store.

Definition ret {A} (a : A) : M A := fun s => (Returns a, s).

Definition bind {A B} (m : M A) (f : A -> M B) : M B :=
  fun s =>
    match m s with
    | (Returns a, s') => f a s'
    | (Throws e, s') => (Throws e, s')
    | (Dangling, s') => (Dangling, s')
    end.

Definition throw {A} (e : error) : M A := fun s => (Throws e, s).

(** A new object. *)
Definition alloc (o : object) : M loc :=
  fun s => (Returns (length s), s ++ [o]).

Definition load (l : loc) : M object :=
  fun s =>
    match s !! l with
    | Some o => (Returns o, s)
    | None => (Dangling, s)
    end.

(** An update in place. *)
Definition modify (l : loc) (f : object -> object) : M unit :=
  fun s =>
    match s !! l with
    | Some o => (Returns tt, <[l := f o]> s)
    | None => (Dangling, s)
    end.

(** [xs.forEach(f)] *)
Fixpoint forEach {A} (xs : list A) (f : A -> M unit) : M unit :=
  match xs with
  | [] => ret tt
  | x :: xs' => bind (f x) (fun _ => forEach xs' f)
  end.

(** [xs.map(f)] *)
Fixpoint mapM {A B} (f : A -> M B) (xs : list A) : M (list B) :=
  match xs with
  | [] => ret []
  | x :: xs' => bind (f x) (fun y => bind (mapM f xs') (fun ys => ret (y :: ys)))
  end.

End Heap.
Import Heap.

Notation "'let*' x ':=' m 'in' k" := (bind m (fun x => k))
  (at level 10, x pattern, m at level 100, k at level 200).

(** ** The tag object *)

Module Tags.

(** [CQText extends CQTag]: the class decides which [toString] runs. *)
Inductive class : Type := CQTag_class | CQText_class.

(** An instance, as the constructor (lines 15-30) leaves it: the three
    fields, and the keys of [data], for each of which the constructor
    has defined on the instance an accessor [get: () => this._data[key]].
    Such an accessor replaces a field or hides a method of the same
    name. *)
Record CQTag : Type := Instance {
  class_of : class;
  _type : jsstring;
  _data : loc;
  _modifier : loc;
  getters : list key
}.

(** [type Tag<T> = { type, data }], lines 5-8. *)
Record Tag : Type := { type : value; data : loc }.

(** [Object.entries(o)] *)
Definition Object_entries (l : loc) : M (list (key * value)) :=
  let* o := load l in ret (props o).

(** [new CQTag(type, data)], lines 15-30. *)
Definition new_CQTag (c : class) (type : jsstring) (data : loc) : M CQTag :=
  let* modifier := alloc empty_object in
  let* entries := Object_entries data in
  ret (Instance c type data modifier (List.map fst entries)).

Definition has_getter (this : CQTag) (k : jsstring) : bool :=
  existsb (jsstring_eqb k) (getters this).

(** [this._data].  An accessor of that name calls itself without end:
    the call stack overflows. *)
Definition this_data (this : CQTag) : M loc :=
  if has_getter this (str "_data") then throw RangeError
  else ret (_data this).

(** The accessor the constructor defines for [key]. *)
Definition getter (this : CQTag) (k : key) : M value :=
  let* d := this_data this in
  let* o := load d in
  ret (get_property k (props o)).

(** [this._type] *)
Definition this_type (this : CQTag) : M value :=
  if has_getter this (str "_type") then getter this (str "_type")
  else ret (VStr (_type this)).

(** What [Object.assign] copies from: an object, or a primitive value. *)
Inductive source : Type :=
| FromObject (l : loc)
| FromValue (v : value).

(** [this._modifier] *)
Definition this_modifier (this : CQTag) : M source :=
  if has_getter this (str "_modifier")
  then let* v := getter this (str "_modifier") in ret (FromValue v)
  else ret (FromObject (_modifier this)).

(** [this.tagName], lines 32-34. *)
Definition this_tagName (this : CQTag) : M value :=
  if has_getter this (str "tagName") then getter this (str "tagName")
  else this_type this.

(** [get(key)], lines 41-43, for a key that the base mapping has as an
    own property or that it does not inherit either: the members that an
    object inherits from [Object.prototype] are functions and objects,
    which [value] does not hold. *)
Definition get (this : CQTag) (k : key) : M value :=
  let* d := this_data this in
  let* o := load d in
  ret (get_property k (props o)).

(** The own enumerable properties of a source of [Object.assign]: those
    of an object; the code units of a string, under their indices; none
    for another primitive value. *)
Definition primitive_entries (v : value) : list (key * value) :=
  match v with
  | VStr s => imap (fun i c => (Number_toString (Z.of_nat i), VStr [c])) s
  | _ => []
  end.

Definition own_entries (s : source) : M (list (key * value)) :=
  match s with
  | FromObject l => Object_entries l
  | FromValue v => ret (primitive_entries v)
  end.

(** [Object.assign(target, ...sources)], for a target that is none of
    the sources. *)
Definition Object_assign (target : loc) (sources : list source) : M unit :=
  forEach sources (fun s =>
    let* entries := own_entries s in
    forEach entries (fun kv =>
      modify target (Set_property (fst kv) (snd kv)))).

(** [Object.assign({}, this._data, this._modifier)], lines 52 and 69. *)
Definition overlaid (this : CQTag) : M loc :=
  let* target := alloc empty_object in
  let* d := this_data this in
  let* m := this_modifier this in
  let* _ := Object_assign target [FromObject d; m] in
  ret target.

(** The body of the callback of line 52, on the local variable [ret]. *)
Definition append_entry (r : jsstring) (kv : key * value) : jsstring :=
  if is_undefined (snd kv) then r
  else r ++ str "," ++ fst kv ++ str "=" ++ ToString (snd kv).

(** [CQTag.prototype.toString], lines 49-60. *)
Definition CQTag_toString (this : CQTag) : M jsstring :=
  let* ty := this_type this in
  let r := str "[CQ:" ++ ToString ty in
  let* o := overlaid this in
  let* entries := Object_entries o in
  let r := fold_left append_entry entries r in
  ret (r ++ str "]").

(** The call [tag.modifier(modifier)], lines 62-65.  An own accessor
    named [modifier] hides the method: it is read and yields an
    attribute value, which is no function.  The class body is strict
    code: assigning to an accessor without a setter throws. *)
Definition modifier (this : CQTag) (m : loc) : M CQTag :=
  if has_getter this (str "modifier")
  then let* _ := getter this (str "modifier") in throw TypeError
  else if has_getter this (str "_modifier") then throw TypeError
  else ret (Instance (class_of this) (_type this) (_data this) m
              (getters this)).

(** [CQTag.prototype.toTag], lines 68-79. *)
Definition CQTag_toTag (this : CQTag) : M Tag :=
  let* o := overlaid this in
  let* entries := Object_entries o in
  let* _ := forEach entries (fun kv =>
              if is_nullish (snd kv)
              then modify o (fun ob => Obj (has_Object_prototype ob)
                                         (delete_property (fst kv) (props ob)))
              else ret tt) in
  let* ty := this_tagName this in
  ret {| type := ty; data := o |}.

(** [new CQText(text)], lines 83-85. *)
Definition new_CQText (text : jsstring) : M CQTag :=
  let* d := alloc (object_of [(str "text", VStr text)]) in
  new_CQTag CQText_class (str "text") d.

(** [CQText.prototype.toString], lines 87-89. *)
Definition CQText_toString (this : CQTag) : M value :=
  let* d := this_data this in
  let* o := load d in
  ret (get_property (str "text") (props o)).

(** The call [tag.toString()]: an own accessor of that name is read
    first and yields an attribute value, which is no function; otherwise
    the method of the class runs. *)
Definition toString (this : CQTag) : M value :=
  if has_getter this (str "toString")
  then let* _ := getter this (str "toString") in throw TypeError
  else match class_of this with
       | CQTag_class => let* s := CQTag_toString this in ret (VStr s)
       | CQText_class => CQText_toString this
       end.

(** The call [tag.toTag()]. *)
Definition toTag (this : CQTag) : M Tag :=
  if has_getter this (str "toTag")
  then let* _ := getter this (str "toTag") in throw TypeError
  else CQTag_toTag this.

End Tags.
Import Tags.

(** ** The tokenizer and the parser *)

Module CQ_parser.

(** [SPLIT = /(?=\[CQ:)|(?<=])/], line 92, tried at one position of the
    message: [prev] is the code unit before the position, if any, and
    [rest] the message from the position on.  Both alternatives are
    assertions: a match is always empty. *)
Definition SPLIT_at (prev : option char) (rest : jsstring) : bool :=
  startsWith (str "[CQ:") rest
  || match prev with
     | Some c => N.eqb c 93
     | None => false
     end.

(** The loop of [String.prototype.split] with a regular expression.
    [cur] is the piece since the last cut, [rest] what is still to be
    read.  The loop tries the expression at each position before the end
    of the string; an empty match cuts the string only when the piece
    before it is not empty (the end [e] of the match differs from the
    start [p] of the piece).  After the loop the last piece is added. *)
Fixpoint split_loop (prev : option char) (cur rest : jsstring)
  : list jsstring :=
  match rest with
  | [] => [cur]
  | c :: rest' =>
      if SPLIT_at prev rest && negb (is_empty cur)
      then cur :: split_loop (Some c) [c] rest'
      else split_loop (Some c) (cur ++ [c]) rest'
  end.

(** [msg.split(SPLIT)].  For the empty string the expression is tried
    once: the result is empty when it matches and holds the string when
    it does not. *)
Definition split_SPLIT (msg : jsstring) : list jsstring :=
  match msg with
  | [] => if SPLIT_at None [] then [] else [[]]
  | _ :: _ => split_loop None [] msg
  end.

(** [value.split(",")]: the pieces between the occurrences of a
    one-character separator. *)
Fixpoint split_char (sep : char) (cur s : jsstring) : list jsstring :=
  match s with
  | [] => [cur]
  | c :: s' =>
      if N.eqb c sep then cur :: split_char sep [] s'
      else split_char sep (cur ++ [c]) s'
  end.

(** The longest prefix whose code units are in a class, and the rest. *)
Fixpoint span (p : char -> bool) (s : jsstring) : jsstring * jsstring :=
  match s with
  | [] => ([], [])
  | c :: s' =>
      if p c then let (a, b) := span p s' in (c :: a, b)
      else ([], s)
  end.

Fixpoint strip_prefix (pat s : jsstring) : option jsstring :=
  match pat, s with
  | [], _ => Some s
  | _ :: _, [] => None
  | p :: pat', c :: s' => if N.eqb p c then strip_prefix pat' s' else None
  end.

(** [[a-z]] and [[^\]]] *)
Definition lower (c : char) : bool := N.leb 97 c && N.leb c 122.
Definition not_rbracket (c : char) : bool := negb (N.eqb c 93).

(** [CQ_TAG_REGEXP.exec(tagStr)] for
    [/^\[CQ:([a-z]+)(?:,([^\]]+))?]$/], line 93: the two capture groups
    of a match, [None] when there is none.  Each greedy repetition can
    only stop where its class ends (what follows [[a-z]+] is [,] or []],
    what follows [[^\]]+] is []]), so the match needs no backtracking. *)
Definition CQ_TAG_REGEXP_exec (tagStr : jsstring)
  : option (jsstring * option jsstring) :=
  match strip_prefix (str "[CQ:") tagStr with
  | None => None
  | Some r =>
      let (tagName, r1) := span lower r in
      if is_empty tagName then None
      else if jsstring_eqb r1 (str "]") then Some (tagName, None)
      else
        match strip_prefix (str ",") r1 with
        | None => None
        | Some r2 =>
            let (value, r3) := span not_rbracket r2 in
            if is_empty value then None
            else if jsstring_eqb r3 (str "]") then Some (tagName, Some value)
            else None
        end
  end.

(** [v.indexOf(pat)]: the first index at which [pat] occurs, or -1. *)
Fixpoint indexOf_from (pat s : jsstring) (i : Z) : Z :=
  if startsWith pat s then i
  else match s with
       | [] => (-1)%Z
       | _ :: s' => indexOf_from pat s' (i + 1)%Z
       end.

Definition indexOf (s pat : jsstring) : Z := indexOf_from pat s 0%Z.

(** [s.substr(start, length)]; [length] is [None] when omitted. *)
Definition substr (s : jsstring) (start : Z) (len : option Z) : jsstring :=
  let size := Z.of_nat (length s) in
  let intStart :=
    if (start <? 0)%Z then Z.max (size + start) 0 else Z.min start size in
  let intLength :=
    match len with
    | None => size
    | Some l => Z.min (Z.max l 0) size
    end in
  let intEnd := Z.min (intStart + intLength) size in
  take (Z.to_nat (intEnd - intStart)) (drop (Z.to_nat intStart) s).

(** The callback of lines 108-111. *)
Definition entry_of (v : jsstring) : key * value :=
  let index := indexOf v (str "=") in
  (substr v 0 (Some index), VStr (substr v (index + 1) None)).

(** [Object.fromEntries(entries)] *)
Definition Object_fromEntries (entries : list (key * value)) : M loc :=
  alloc (object_of entries).

(** The callback of lines 98-113: the parser of one token. *)
Definition parseToken (tagStr : jsstring) : M CQTag :=
  match CQ_TAG_REGEXP_exec tagStr with
  | None => new_CQText tagStr
  | Some (tagName, None) =>
      let* d := alloc empty_object in
      new_CQTag CQTag_class tagName d
  | Some (tagName, Some value) =>
      let* d := Object_fromEntries
                  (List.map entry_of (split_char 44 [] value)) in
      new_CQTag CQTag_class tagName d
  end.

(** [CQ.parse(msg)], lines 97-114. *)
Definition parse (msg : jsstring) : M (list CQTag) :=
  mapM parseToken (split_SPLIT msg).

(** [CQ.text(text)], line 147, for a string. *)
Definition text (t : jsstring) : M CQTag := new_CQText t.

End CQ_parser.
Import CQ_parser.

(** ** Reading the results *)

(** Running a method in a store. *)
Definition result {A} (m : M A) (s : store) : outcome A := fst (m s).
Definition final {A} (m : M A) (s : store) : store := snd (m s).

(** ** The vocabulary of the statements *)

(** The tag grammar [[CQ:<name>(,<value>)?]]: a non-empty name of
    lower-case letters and, when there is a comma, a non-empty value
    without a closing bracket. *)
Definition tag_grammar (s name : jsstring) (value : option jsstring) : Prop :=
  name <> [] /\ Forall (fun c => lower c = true) name /\
  match value with
  | None => s = str "[CQ:" ++ name ++ str "]"
  | Some v =>
      v <> [] /\ Forall (fun c => c <> 93) v /\
      s = str "[CQ:" ++ name ++ str "," ++ v ++ str "]"
  end.

Definition well_formed_tag (s : jsstring) : Prop :=
  exists name value, tag_grammar s name value.

(** What [Object.assign] makes of its target when it copies the entries
    [es] to it. *)
Definition assign (o : object) (es : list (key * value)) : object :=
  fold_left (fun o kv => Set_property (fst kv) (snd kv) o) es o.

(** The overlaid mapping of an instance whose base mapping is [d] and
    whose override mapping is [m]. *)
Definition overlay_of (this : CQTag) (d m : object) : object :=
  assign (assign empty_object (props d))
    (if has_getter this (str "_modifier")
     then primitive_entries (get_property (str "_modifier") (props d))
     else props m).

(** What [this._type] and [this.tagName] evaluate to, for an instance
    whose base mapping is [d]. *)
Definition type_of (this : CQTag) (d : object) : value :=
  if has_getter this (str "_type")
  then get_property (str "_type") (props d)
  else VStr (_type this).

Definition tagName_of (this : CQTag) (d : object) : value :=
  if has_getter this (str "tagName")
  then get_property (str "tagName") (props d)
  else type_of this d.

(** The text of one attribute in the wire text. *)
Definition emit (kv : key * value) : jsstring :=
  str "," ++ fst kv ++ str "=" ++ ToString (snd kv).

Definition defined (kv : key * value) : bool := negb (is_undefined (snd kv)).
Definition not_nullish (kv : key * value) : bool := negb (is_nullish (snd kv)).

(** Replacing the properties of an object in the store. *)
Definition set_props (l : loc) (ps : properties) : M unit :=
  modify l (fun ob => Obj (has_Object_prototype ob) ps).

(** The outcome of [toString] of the class [CQTag], for an instance whose
    base mapping is [d] and whose override mapping is [m]. *)
Definition wire_text (this : CQTag) (d m : object) : outcome jsstring :=
  if has_getter this (str "_data") then Throws RangeError
  else Returns (str "[CQ:" ++ ToString (type_of this d)
                  ++ flat_map emit
                       (List.filter defined (props (overlay_of this d m)))
                  ++ str "]").

(** The outcome of [toTag]: the type and the entries of the data. *)
Definition structured (this : CQTag) (d m : object)
  : outcome (value * list (key * value)) :=
  if has_getter this (str "_data") then Throws RangeError
  else Returns (tagName_of this d,
                List.filter not_nullish (props (overlay_of this d m))).

(** What a call that returns a [Tag] has produced: its type and the
    entries of its data object in the final store. *)
Definition content (m : M Tag) (s : store)
  : outcome (value * option (list (key * value))) :=
  match m s with
  | (Returns tg, s') => Returns (type tg, props <$> s' !! data tg)
  | (Throws e, _) => Throws e
  | (Dangling, _) => Dangling
  end.

(** The overlay as the specification describes it: the entries of the
    base in their order, each with the value of the override when the
    override has its key, then the entries of the override whose key
    the base does not have, in their order. *)
Definition overridden (m : properties) (kv : key * value) : key * value :=
  (fst kv, if has_property (fst kv) m then get_property (fst kv) m else snd kv).

Definition overlay_spec (d m : properties) : properties :=
  List.map (overridden m) d
  ++ List.filter (fun kv => negb (has_property (fst kv) d)) m.

(** A key that [Object.assign] treats as an ordinary name. *)
Definition plain_key (k : key) : Prop :=
  array_index k = None /\ k <> str "__proto__".

(** The indices of a message at which the tokens begin. *)
Fixpoint token_starts (at_ : nat) (tokens : list jsstring) : list nat :=
  match tokens with
  | [] => []
  | t :: ts => at_ :: token_starts (at_ + length t) ts
  end.

(** [s.substring(p, q)] for [p <= q]. *)
Definition substring (s : jsstring) (p q : nat) : jsstring :=
  take (q - p) (drop p s).

(** The []] before index [q] closes a well-formed tag token: a substring
    of the message that ends there is in the tag grammar. *)
Definition closes_tag (msg : jsstring) (q : nat) : Prop :=
  exists p, (p < q)%nat /\ well_formed_tag (substring msg p q).

(** The boundary rule with a cut after a []] only where it closes a
    well-formed tag token. *)
Definition cuts_after_tags_only (msg : jsstring) : Prop :=
  (forall q, (q < length msg)%nat ->
             startsWith (str "[CQ:") (drop q msg) = true ->
             In q (token_starts 0 (split_SPLIT msg))) /\
  (forall q, (0 < q)%nat ->
             In q (token_starts 0 (split_SPLIT msg)) ->
             startsWith (str "[CQ:") (drop q msg) = true \/
             (msg !! (q - 1)%nat = Some 93 /\ closes_tag msg q)).

(** The example of the specification: the tag of type ["face"] with the
    base [{id: 1}] and the override [{id: 2, extra: "x"}], in the store
    that holds these two objects. *)
Definition face_base : object := object_of [(str "id", VNum 1)].
Definition face_override : object :=
  object_of [(str "id", VNum 2); (str "extra", VStr (str "x"))].
Definition face_tag : CQTag :=
  Instance CQTag_class (str "face") 0 1 [str "id"].

(** The instance that [new CQText(text)] returns in a store of [n]
    objects, and the two objects it adds to the store. *)
Definition text_instance (n : nat) : CQTag :=
  Instance CQText_class (str "text") n (S n) [str "text"].

Definition text_objects (text : jsstring) : list object :=
  [object_of [(str "text", VStr text)]; empty_object].

(** The keys of an object. *)
Definition keys (ps : properties) : list key := List.map fst ps.

(** The loop of [toTag] that deletes the entries without a value. *)
Definition delete_nullish (acc : properties) (kv : key * value)
  : properties :=
  if is_nullish (snd kv) then delete_property (fst kv) acc else acc.

(** Assigning to a key that is an ordinary name. *)
Definition upsert (ps : properties) (kv : key * value) : properties :=
  if has_property (fst kv) ps then update_property (fst kv) (snd kv) ps
  else ps ++ [kv].

(** The code unit before index [i] of [rest], where [prev] is the one
    before [rest]. *)
Definition char_before (prev : option char) (rest : jsstring) (i : nat)
  : option char :=
  match i with
  | O => prev
  | S j => rest !! j
  end.

(** What each stage of [escape] and of [unescape] has made of one
    code unit of the input. *)
Definition esc_amp (c : char) : jsstring :=
  if N.eqb c 38 then str "&amp;" else [c].
Definition esc_lb (c : char) : jsstring :=
  if N.eqb c 38 then str "&amp;"
  else if N.eqb c 91 then str "&#91;" else [c].
Definition esc_rb (c : char) : jsstring :=
  if N.eqb c 38 then str "&amp;"
  else if N.eqb c 91 then str "&#91;"
  else if N.eqb c 93 then str "&#93;" else [c].
Definition esc_comma (c : char) : jsstring :=
  if N.eqb c 38 then str "&amp;"
  else if N.eqb c 91 then str "&#91;"
  else if N.eqb c 93 then str "&#93;"
  else if N.eqb c 44 then str "&#44;" else [c].
Definition esc_char (insideCQ : bool) : char -> jsstring :=
  if insideCQ then esc_comma else esc_rb.

(** ** The factories *)

Module CQ_factories.

(** An optional parameter that the caller leaves out is [undefined]. *)
Definition optional {A : Type} (inj : A -> value) (o : option A) : value :=
  match o with
  | Some a => inj a
  | None => VUndefined
  end.

(** [new CQTag(type, {k1, ..., kn})]: the object literal is evaluated,
    then the constructor runs. *)
Definition build (type : jsstring) (fields : list (key * value)) : M CQTag :=
  let* d := alloc (object_of fields) in
  new_CQTag CQTag_class type d.

(** [CQ.face(id)], line 153. *)
Definition face (id : Z) : M CQTag :=
  build (str "face") [(str "id", VNum id)].

(** [CQ.record(file, magic?, cache?, proxy?, timeout?)], lines 162-166. *)
Definition record (file : jsstring) (magic cache proxy : option bool)
           (timeout : option Z) : M CQTag :=
  build (str "record")
    [(str "file", VStr file); (str "magic", optional VBool magic);
     (str "cache", optional VBool cache); (str "proxy", optional VBool proxy);
     (str "timeout", optional VNum timeout)].

(** The parameter of [CQ.at]: [number | "all"]. *)
Inductive at_target : Type := QQ (n : Z) | All.

Definition at_value (qq : at_target) : value :=
  match qq with
  | QQ n => VNum n
  | All => VStr (str "all")
  end.

(** [CQ.at(qq)], line 171. *)
Definition at_ (qq : at_target) : M CQTag :=
  build (str "at") [(str "qq", at_value qq)].

(** [CQ.share(url, title, content?, image?)], lines 179-186. *)
Definition share (url title : jsstring) (content image : option jsstring)
  : M CQTag :=
  build (str "share")
    [(str "url", VStr url); (str "title", VStr title);
     (str "content", optional VStr content);
     (str "image", optional VStr image)].

(** The first parameter of [CQ.music]: ["qq" | "163" | "xm"]. *)
Inductive music_type : Type := music_qq | music_163 | music_xm.

Definition music_type_name (ty : music_type) : jsstring :=
  match ty with
  | music_qq => str "qq"
  | music_163 => str "163"
  | music_xm => str "xm"
  end.

(** [CQ.music(type, id)], line 192. *)
Definition music (ty : music_type) (id : Z) : M CQTag :=
  build (str "music") [(str "type", VStr (music_type_name ty));
                       (str "id", VNum id)].

(** [CQ.musicCustom(url, audio, title, content?, image?)], lines 201-211. *)
Definition musicCustom (url audio title : jsstring)
           (content image : option jsstring) : M CQTag :=
  build (str "music")
    [(str "type", VStr (str "custom")); (str "url", VStr url);
     (str "audio", VStr audio); (str "title", VStr title);
     (str "content", optional VStr content);
     (str "image", optional VStr image)].

(** [CQ.image(file, type?, url?, cache?, id?, c?)], lines 222-227. *)
Definition image (file : jsstring) (ty url : option jsstring)
           (cache id c : option Z) : M CQTag :=
  build (str "image")
    [(str "file", VStr file); (str "type", optional VStr ty);
     (str "url", optional VStr url); (str "cache", optional VNum cache);
     (str "id", optional VNum id); (str "c", optional VNum c)].

(** [CQ.reply(id)], [CQ.poke(qq)], [CQ.gift(qq, id)], [CQ.nodeId(id)],
    lines 232-248. *)
Definition reply (id : Z) : M CQTag :=
  build (str "reply") [(str "id", VNum id)].
Definition poke (qq : Z) : M CQTag :=
  build (str "poke") [(str "qq", VNum qq)].
Definition gift (qq id : Z) : M CQTag :=
  build (str "gift") [(str "qq", VNum qq); (str "id", VNum id)].
Definition nodeId (id : Z) : M CQTag :=
  build (str "node") [(str "id", VNum id)].

(** [CQ.xml(data, resid?)] and [CQ.json(data, resid?)], lines 267 and
    273: both build a tag of type ["xml"]. *)
Definition xml (data : jsstring) (resid : option Z) : M CQTag :=
  build (str "xml") [(str "data", VStr data);
                     (str "resid", optional VNum resid)].
Definition json (data : jsstring) (resid : option Z) : M CQTag :=
  build (str "xml") [(str "data", VStr data);
                     (str "resid", optional VNum resid)].

(** [CQ.cardimage(file, minwidth?, minheight?, maxwidth?, maxheight?,
    source?, icon?)], lines 284-296. *)
Definition cardimage (file : jsstring)
           (minwidth minheight maxwidth maxheight : option Z)
           (source icon : option jsstring) : M CQTag :=
  build (str "cardimage")
    [(str "file", VStr file); (str "minwidth", optional VNum minwidth);
     (str "minheight", optional VNum minheight);
     (str "maxwidth", optional VNum maxwidth);
     (str "maxheight", optional VNum maxheight);
     (str "source", optional VStr source);
     (str "icon", optional VStr icon)].

(** [CQ.tts(text)], line 301. *)
Definition tts (text : jsstring) : M CQTag :=
  build (str "tts") [(str "text", VStr text)].

(** [CQ.custom(type, data = {})], line 307. *)
Definition custom (type : jsstring) (data : option loc) : M CQTag :=
  match data with
  | Some d => new_CQTag CQTag_class type d
  | None => let* d := alloc empty_object in new_CQTag CQTag_class type d
  end.

End CQ_factories.
Import CQ_factories.

(** ** More vocabulary *)

(** The names that an attribute must not have if the methods of the tag
    are to read the fields and to find [toString] and [toTag]. *)
Definition member_names : list jsstring :=
  [str "_type"; str "_data"; str "_modifier"; str "tagName";
   str "toString"; str "toTag"].

(** A key that is an ordinary name and clashes with no member. *)
Definition ordinary_key (k : key) : bool :=
  match array_index k with
  | Some _ => false
  | None => negb (jsstring_eqb k (str "__proto__"))
            && negb (existsb (jsstring_eqb k) member_names)
  end.

(** The keys are pairwise distinct. *)
Fixpoint distinct (ks : list key) : bool :=
  match ks with
  | [] => true
  | k :: ks' => negb (existsb (jsstring_eqb k) ks') && distinct ks'
  end.

(** A string without the characters that delimit the markup. *)
Definition no_char (c : char) (s : jsstring) : bool :=
  forallb (fun x => negb (N.eqb x c)) s.
Definition bracket_free (s : jsstring) : bool :=
  no_char 91 s && no_char 93 s.
Definition value_safe (s : jsstring) : bool :=
  bracket_free s && no_char 44 s.
Definition key_safe (s : jsstring) : bool :=
  value_safe s && no_char 61 s.

(** The base object that the parser builds for a token, and the
    instance it returns in a store of [n] objects. *)
Definition token_object (tok : jsstring) : object :=
  match CQ_TAG_REGEXP_exec tok with
  | None => object_of [(str "text", VStr tok)]
  | Some (_, None) => empty_object
  | Some (_, Some value) =>
      object_of (List.map entry_of (split_char 44 [] value))
  end.

Definition token_instance (tok : jsstring) (n : nat) : CQTag :=
  match CQ_TAG_REGEXP_exec tok with
  | None => text_instance n
  | Some (name, _) =>
      Instance CQTag_class name n (S n) (keys (props (token_object tok)))
  end.

(** The tags of the tokens, from location [n] on, and their objects. *)
Fixpoint token_instances (tokens : list jsstring) (n : nat) : list CQTag :=
  match tokens with
  | [] => []
  | tok :: rest => token_instance tok n :: token_instances rest (S (S n))
  end.

Definition token_objects (tokens : list jsstring) : list object :=
  flat_map (fun tok => [token_object tok; empty_object]) tokens.

(** A tag token whose wire text the parser and [toString] reproduce:
    every piece of its attribute part has an [=], and the keys of the
    pieces are distinct ordinary names. *)
Definition piece_key (p : jsstring) : key := fst (entry_of p).

Definition faithful_token (tok : jsstring) : bool :=
  match CQ_TAG_REGEXP_exec tok with
  | Some (_, Some value) =>
      let pieces := split_char 44 [] value in
      forallb (fun p => negb (no_char 61 p)) pieces
      && forallb ordinary_key (List.map piece_key pieces)
      && distinct (List.map piece_key pieces)
  | _ => true
  end.

(** The attribute as the parser reads it back: its value is the string
    of the value. *)
Definition stringified (kv : key * value) : key * value :=
  (fst kv, VStr (ToString (snd kv))).

(** The wire text of a tag of type [ty] with the attributes [fields]. *)
Definition wire (ty : jsstring) (fields : list (key * value)) : jsstring :=
  str "[CQ:" ++ ty ++ flat_map emit (List.filter defined fields) ++ str "]".

(** Running a factory and then a method of the tag it returns. *)
Definition and_then {A} (mk : M CQTag) (method : CQTag -> M A) : M A :=
  let* t := mk in method t.

(** The shape of a token: it is not empty, a []] can only be its last
    character and [[CQ:] can only be at its start. *)
Definition token_shape (t : jsstring) : Prop :=
  t <> [] /\
  (forall i : nat, t !! i = Some 93 -> S i = length t) /\
  (forall i : nat, (0 < i)%nat -> startsWith (str "[CQ:") (drop i t) = false).

(** The text of an optional attribute in the wire text: nothing when the
    parameter was left out. *)
Definition optional_attribute {A : Type} (k : string) (inj : A -> value)
           (o : option A) : jsstring :=
  match o with
  | Some a => emit (str k, inj a)
  | None => []
  end.

(** The entry of an optional attribute in the data of [toTag]. *)
Definition optional_entry {A : Type} (k : string) (inj : A -> value)
           (o : option A) : list (key * value) :=
  match o with
  | Some a => [(str k, inj a)]
  | None => []
  end.

(** The wire text of a tag that a factory returns, and the type and data
    of its structured form. *)
Definition wire_of (mk : M CQTag) (s : store) : outcome value :=
  result (and_then mk toString) s.

Definition tag_of (mk : M CQTag) (s : store)
  : outcome (value * option (list (key * value))) :=
  content (and_then mk toTag) s.

(** The piece of the attribute part that an attribute is written as. *)
Definition piece_of (kv : key * value) : jsstring :=
  fst kv ++ str "=" ++ ToString (snd kv).

(** An attribute whose value is a string, escaped for the inside of a
    tag. *)
Definition escaped_attribute (kv : key * jsstring) : key * value :=
  (fst kv, VStr (escape (snd kv) true)).

(** The entries that the parser computes from the attribute part of a
    tag token. *)
Definition token_entries (attrs : jsstring) : list (key * value) :=
  List.map entry_of (split_char 44 [] attrs).

(** The value of the last entry with the key [k]; [undefined] when no
    entry has that key. *)
Definition last_value (k : key) (es : list (key * value)) : value :=
  fold_left (fun acc kv => if jsstring_eqb (fst kv) k then snd kv else acc)
    es VUndefined.

(** The call [tag.get(key)]: an own accessor named [get] yields an
    attribute value, which is no function; otherwise the method of
    lines 41-43 runs. *)
Definition call_get (this : CQTag) (k : key) : M value :=
  if has_getter this (str "get")
  then let* _ := getter this (str "get") in throw TypeError
  else get this k.

(** The overlaid value of a key: that of the override when the
    override has the key, that of the base otherwise. *)
Definition overlaid_value (d m : properties) (k : key) : value :=
  if has_property k m then get_property k m else get_property k d.

(** [entries] are the overlaid attributes of the base [d] and of the
    override [m]: one entry for each key of either, with its overlaid
    value. *)
Definition overlaid_entries (d m entries : properties) : Prop :=
  List.NoDup (keys entries) /\
  forall k v, In (k, v) entries <->
              In k (keys d ++ keys m) /\ v = overlaid_value d m k.

(** A tag with a [null] and an [undefined] attribute, and an override
    with both too. *)
Definition filter_base : object :=
  Obj true [(str "id", VNum 1); (str "name", VNull);
            (str "note", VUndefined)].
Definition filter_override : object :=
  Obj true [(str "id", VUndefined); (str "extra", VNull)].
Definition filter_tag : CQTag :=
  Instance CQTag_class (str "face") 0 1 [str "id"; str "name"; str "note"].

(** The members that an object inherits from [Object.prototype]: the
    names that [o[k]] finds there when [o] has no own property [k].
    What it finds is a function (for [__proto__], the prototype
    itself), not a primitive value. *)
Definition Object_prototype_members : list key :=
  [str "constructor"; str "__defineGetter__"; str "__defineSetter__";
   str "hasOwnProperty"; str "__lookupGetter__"; str "__lookupSetter__";
   str "isPrototypeOf"; str "propertyIsEnumerable"; str "toString";
   str "valueOf"; str "__proto__"; str "toLocaleString"].

Definition inherited (k : key) : bool :=
  existsb (jsstring_eqb k) Object_prototype_members.

(** ** Facts on strings *)

Lemma jsstring_eqb_spec (a b : jsstring) : reflect (a = b) (jsstring_eqb a b).
Proof.
  revert b. induction a as [|x a IH]; intros [|y b]; simpl;
    try (constructor; congruence).
  destruct (N.eqb_spec x y) as [->|Hne]; simpl.
  - destruct (IH b) as [->|Hne]; constructor; congruence.
  - constructor; congruence.
Qed.

Lemma jsstring_eqb_refl (a : jsstring) : jsstring_eqb a a = true.
Proof. now destruct (jsstring_eqb_spec a a). Qed.

Lemma jsstring_eqb_sym (a b : jsstring) : jsstring_eqb a b = jsstring_eqb b a.
Proof.
  destruct (jsstring_eqb_spec a b), (jsstring_eqb_spec b a); congruence.
Qed.

Section ReplaceFacts.
Variables pat rep : jsstring.

Lemma startsWith_app (s : jsstring) : startsWith pat (pat ++ s) = true.
  Proof.
    induction pat as [|p q IH]; simpl; [reflexivity|].
    rewrite N.eqb_refl. exact IH.
  Qed.

Lemma replace_from_consume (m rest : jsstring) :
    replace_from pat rep (length m) (m ++ rest) = replaceAll pat rep rest.
  Proof.
    induction m as [|c m IH]; simpl.
    - destruct rest; reflexivity.
    - exact IH.
  Qed.

  (** The three equations of the left-to-right scan. *)
Lemma replaceAll_nil : replaceAll pat rep [] = [].
  Proof. reflexivity. Qed.

Lemma replaceAll_match (s : jsstring) :
    pat <> [] -> replaceAll pat rep (pat ++ s) = rep ++ replaceAll pat rep s.
  Proof.
    intros Hne. pose proof (startsWith_app s) as Hpre.
    pose proof (fun m => replace_from_consume m s) as Hskip.
    destruct pat as [|p q]; [congruence|].
    unfold replaceAll at 1. simpl app in *. cbn [replace_from].
    rewrite Hpre. f_equal. apply (Hskip q).
  Qed.

Lemma replaceAll_copy (c : char) (s : jsstring) :
    startsWith pat (c :: s) = false ->
    replaceAll pat rep (c :: s) = c :: replaceAll pat rep s.
  Proof. intros H. unfold replaceAll. cbn [replace_from]. now rewrite H. Qed.

  (** Replacing through a character-wise expansion. *)
Lemma replaceAll_flat_map (f g : char -> jsstring) (s : jsstring) :
    (forall c rest,
        replaceAll pat rep (f c ++ rest) = g c ++ replaceAll pat rep rest) ->
    replaceAll pat rep (flat_map f s) = flat_map g s.
  Proof.
    intros H. induction s as [|c s IH]; simpl; [reflexivity|].
    now rewrite H, IH.
  Qed.
End ReplaceFacts.

(** ** The escaper: round trip *)

Section EscapeRoundTrip.

Lemma flat_map_unit (s : jsstring) : flat_map (fun c => [c]) s = s.
  Proof. induction s as [|c s IH]; simpl; congruence. Qed.

Ltac split_char c :=
    destruct (N.eqb_spec c 38) as [->|?];
    [|destruct (N.eqb_spec c 91) as [->|?];
      [|destruct (N.eqb_spec c 93) as [->|?];
        [|destruct (N.eqb_spec c 44) as [->|?]]]].

Ltac other_char c :=
    unfold replaceAll; cbn [replace_from startsWith str List.map
                              list_ascii_of_string app];
    repeat match goal with
      | H : c <> ?k |- context [N.eqb ?k' c] =>
          replace (N.eqb k' c) with false
            by (symmetry; apply N.eqb_neq; cbv; intros E; apply H;
                symmetry; exact E)
      end;
    cbn [andb]; try reflexivity.

Ltac stage c :=
    unfold esc_amp, esc_lb, esc_rb, esc_comma;
    split_char c; try reflexivity;
    first [ other_char c
          | repeat match goal with
              | H : c <> ?k |- context [N.eqb c ?k] =>
                  rewrite (proj2 (N.eqb_neq c k) H)
              end; other_char c ].

Lemma escape_stage_amp c rest :
    replaceAll (str "&") (str "&amp;") ([c] ++ rest)
    = esc_amp c ++ replaceAll (str "&") (str "&amp;") rest.
  Proof. stage c. Qed.

Lemma escape_stage_lb c rest :
    replaceAll (str "[") (str "&#91;") (esc_amp c ++ rest)
    = esc_lb c ++ replaceAll (str "[") (str "&#91;") rest.
  Proof. stage c. Qed.

Lemma escape_stage_rb c rest :
    replaceAll (str "]") (str "&#93;") (esc_lb c ++ rest)
    = esc_rb c ++ replaceAll (str "]") (str "&#93;") rest.
  Proof. stage c. Qed.

Lemma escape_stage_comma c rest :
    replaceAll (str ",") (str "&#44;") (esc_rb c ++ rest)
    = esc_comma c ++ replaceAll (str ",") (str "&#44;") rest.
  Proof. stage c. Qed.

  (** [escape] expands every code unit on its own: the entities that an
      earlier replacement writes contain no character that a later one
      replaces. *)
Lemma escape_flat_map (s : jsstring) (insideCQ : bool) :
    escape s insideCQ = flat_map (esc_char insideCQ) s.
  Proof.
    assert (Htemp : replaceAll (str "]") (str "&#93;")
                      (replaceAll (str "[") (str "&#91;")
                         (replaceAll (str "&") (str "&amp;") s))
                    = flat_map esc_rb s).
    { rewrite <- (flat_map_unit s) at 1.
      rewrite (replaceAll_flat_map _ _ _ esc_amp) by apply escape_stage_amp.
      rewrite (replaceAll_flat_map _ _ _ esc_lb) by apply escape_stage_lb.
      now rewrite (replaceAll_flat_map _ _ _ esc_rb)
        by apply escape_stage_rb. }
    unfold escape. cbv zeta. rewrite Htemp.
    destruct insideCQ; [|reflexivity].
    now rewrite (replaceAll_flat_map _ _ _ esc_comma)
      by apply escape_stage_comma.
  Qed.

Lemma unescape_stage_comma b c rest :
    replaceAll (str "&#44;") (str ",") (esc_char b c ++ rest)
    = esc_rb c ++ replaceAll (str "&#44;") (str ",") rest.
  Proof. destruct b; unfold esc_char; stage c. Qed.

Lemma unescape_stage_lb c rest :
    replaceAll (str "&#91;") (str "[") (esc_rb c ++ rest)
    = (if N.eqb c 38 then str "&amp;"
       else if N.eqb c 93 then str "&#93;" else [c])
      ++ replaceAll (str "&#91;") (str "[") rest.
  Proof. stage c. Qed.

Lemma unescape_stage_rb c rest :
    replaceAll (str "&#93;") (str "]")
      ((if N.eqb c 38 then str "&amp;"
        else if N.eqb c 93 then str "&#93;" else [c]) ++ rest)
    = esc_amp c ++ replaceAll (str "&#93;") (str "]") rest.
  Proof. stage c. Qed.

Lemma unescape_stage_amp c rest :
    replaceAll (str "&amp;") (str "&") (esc_amp c ++ rest)
    = [c] ++ replaceAll (str "&amp;") (str "&") rest.
  Proof. stage c. Qed.

  (** The round trip holds for every string. *)
Lemma unescape_escape (s : jsstring) (insideCQ : bool) :
    unescape (escape s insideCQ) = s.
  Proof.
    rewrite escape_flat_map. unfold unescape.
    rewrite (replaceAll_flat_map _ _ _ esc_rb)
      by apply unescape_stage_comma.
    rewrite (replaceAll_flat_map _ _ _ _ _ unescape_stage_lb).
    rewrite (replaceAll_flat_map _ _ _ _ _ unescape_stage_rb).
    rewrite (replaceAll_flat_map _ _ _ _ _ unescape_stage_amp).
    apply flat_map_unit.
  Qed.

End EscapeRoundTrip.

(** ** The tokenizer *)

Section Tokenizer.

Lemma split_loop_concat prev cur rest :
    concat (split_loop prev cur rest) = cur ++ rest.
  Proof.
    revert prev cur. induction rest as [|c rest IH]; intros prev cur.
    - simpl. now rewrite app_nil_r.
    - cbn [split_loop]. destruct (SPLIT_at prev (c :: rest) && _).
      + cbn [concat]. now rewrite IH.
      + rewrite IH. now rewrite <- app_assoc.
  Qed.

Lemma split_SPLIT_concat msg : concat (split_SPLIT msg) = msg.
  Proof.
    destruct msg as [|c msg]; [reflexivity|].
    unfold split_SPLIT. now rewrite split_loop_concat.
  Qed.

Lemma split_loop_starts prev cur rest (at_ q : nat) :
    cur <> [] ->
    In q (token_starts at_ (split_loop prev cur rest)) <->
    q = at_ \/
    exists i, (i < length rest)%nat /\ q = (at_ + length cur + i)%nat /\
              SPLIT_at (char_before prev rest i) (drop i rest) = true.
  Proof.
    revert prev cur at_. induction rest as [|c rest IH]; intros prev cur at_ Hcur.
    - simpl. split; [intros [H|[]]; now left|].
      intros [->|(i & Hi & _)]; [now left | simpl in Hi; lia].
    - cbn [split_loop].
      assert (Hne : negb (is_empty cur) = true) by (now destruct cur).
      rewrite Hne, andb_true_r.
      destruct (SPLIT_at prev (c :: rest)) eqn:Hsplit.
      + cbn [token_starts In]. rewrite IH by discriminate.
        split.
        * intros [H|[H|(i & Hi & -> & Hs)]]; [now left| |].
          -- right. exists 0%nat. simpl. repeat split; [lia|lia|exact Hsplit].
          -- right. exists (S i). simpl. repeat split; [lia|lia|].
             destruct i; exact Hs.
        * intros [H|(i & Hi & -> & Hs)]; [now left|]. right.
          destruct i as [|i].
          -- left. lia.
          -- right. exists i. simpl in Hi. repeat split; [lia|simpl; lia|].
             destruct i; exact Hs.
      + rewrite IH by (now destruct cur).
        rewrite length_app. simpl length.
        split.
        * intros [H|(i & Hi & -> & Hs)]; [now left|]. right.
          exists (S i). simpl. repeat split; [lia|lia|].
          destruct i; exact Hs.
        * intros [H|(i & Hi & -> & Hs)]; [now left|]. right.
          destruct i as [|i].
          -- simpl in Hs. congruence.
          -- exists i. simpl in Hi. repeat split; [lia|lia|].
             destruct i; exact Hs.
  Qed.

  (** Where [msg.split(SPLIT)] cuts a message: at the indices inside the
      message at which [[CQ:] begins or before which there is a []]. *)
Lemma split_SPLIT_starts msg (q : nat) :
    (0 < q < length msg)%nat ->
    In q (token_starts 0 (split_SPLIT msg)) <->
    startsWith (str "[CQ:") (drop q msg) = true \/ msg !! (q - 1)%nat = Some 93.
  Proof.
    intros Hq. destruct msg as [|c msg]; [simpl in Hq; lia|].
    unfold split_SPLIT. cbn [split_loop is_empty negb].
    rewrite andb_false_r. simpl app.
    rewrite split_loop_starts by discriminate.
    simpl in Hq. destruct q as [|q]; [lia|].
    replace (S q - 1)%nat with q by lia.
    assert (Hat : forall r,
               SPLIT_at (char_before (Some c) msg q) r = true <->
               startsWith (str "[CQ:") r = true \/ (c :: msg) !! q = Some 93).
    { intros r. unfold SPLIT_at. rewrite orb_true_iff.
      assert (Hb : char_before (Some c) msg q = (c :: msg) !! q)
        by (destruct q; reflexivity).
      rewrite Hb. destruct ((c :: msg) !! q) as [x|].
      - destruct (N.eqb_spec x 93) as [->|Hx]; [tauto|].
        split; (intros [H|H]; [now left | (discriminate || congruence)]).
      - split; (intros [H|H]; [now left | discriminate]). }
    split.
    - intros [H|(i & Hi & Hqi & Hs)]; [discriminate|].
      simpl in Hqi. injection Hqi as ->. now apply Hat.
    - intros H. right. exists q. simpl. repeat split; [lia|]. now apply Hat.
  Qed.

End Tokenizer.

(** ** The tag grammar and the regular expression *)

Section TagGrammar.

Lemma strip_prefix_app pat r : strip_prefix pat (pat ++ r) = Some r.
  Proof.
    induction pat as [|p pat IH]; simpl; [reflexivity|].
    now rewrite N.eqb_refl.
  Qed.

Lemma strip_prefix_Some pat s r :
    strip_prefix pat s = Some r -> s = pat ++ r.
  Proof.
    revert s. induction pat as [|p pat IH]; intros s H; simpl in *.
    - congruence.
    - destruct s as [|c s]; [discriminate|].
      destruct (N.eqb_spec p c) as [->|]; [|discriminate].
      now rewrite (IH s H).
  Qed.

Lemma span_app p a b :
    Forall (fun c => p c = true) a ->
    match b with [] => True | c :: _ => p c = false end ->
    span p (a ++ b) = (a, b).
  Proof.
    intros Ha Hb. induction Ha as [|c a Hc Ha IH]; simpl.
    - destruct b as [|c b]; [reflexivity|]. simpl. now rewrite Hb.
    - now rewrite Hc, IH.
  Qed.

Lemma span_spec p s a b :
    span p s = (a, b) ->
    s = a ++ b /\ Forall (fun c => p c = true) a /\
    match b with [] => True | c :: _ => p c = false end.
  Proof.
    revert a b. induction s as [|c s IH]; intros a b H; simpl in H.
    - inversion H. repeat split; constructor.
    - destruct (p c) eqn:Hc.
      + destruct (span p s) as [a' b'] eqn:E. inversion H; subst.
        destruct (IH a' b eq_refl) as (-> & Hall & Hb).
        repeat split; [constructor; assumption | assumption].
      + inversion H; subst. repeat split; [constructor | assumption].
  Qed.

Lemma not_rbracket_Forall v :
    Forall (fun c => c <> 93) v <->
    Forall (fun c => not_rbracket c = true) v.
  Proof.
    split; intros H; induction H; constructor; try assumption;
      unfold not_rbracket in *.
    - now apply negb_true_iff, N.eqb_neq.
    - now apply N.eqb_neq, negb_true_iff.
  Qed.

  (** The matcher finds exactly the strings of the grammar, with their
      two groups. *)
Lemma CQ_TAG_REGEXP_exec_sound s name value :
    CQ_TAG_REGEXP_exec s = Some (name, value) -> tag_grammar s name value.
  Proof.
    unfold CQ_TAG_REGEXP_exec, tag_grammar.
    destruct (strip_prefix (str "[CQ:") s) as [r|] eqn:Hpre; [|discriminate].
    apply strip_prefix_Some in Hpre. subst s.
    destruct (span lower r) as [n r1] eqn:Hn.
    apply span_spec in Hn. destruct Hn as (-> & Hlow & _).
    destruct n as [|c n]; [discriminate|]. cbn [is_empty].
    destruct (jsstring_eqb_spec r1 (str "]")) as [->|_].
    - intros [= <- <-]. repeat split; [discriminate | assumption].
    - destruct (strip_prefix (str ",") r1) as [r2|] eqn:Hc; [|discriminate].
      apply strip_prefix_Some in Hc. subst r1.
      destruct (span not_rbracket r2) as [v r3] eqn:Hv.
      apply span_spec in Hv. destruct Hv as (-> & Hnb & _).
      destruct v as [|cv v]; [discriminate|]. cbn [is_empty].
      destruct (jsstring_eqb_spec r3 (str "]")) as [->|_]; [|discriminate].
      intros [= <- <-].
      split; [discriminate|]. split; [assumption|].
      split; [discriminate|]. split; [now apply not_rbracket_Forall|].
      reflexivity.
  Qed.

Lemma CQ_TAG_REGEXP_exec_complete s name value :
    tag_grammar s name value -> CQ_TAG_REGEXP_exec s = Some (name, value).
  Proof.
    unfold tag_grammar, CQ_TAG_REGEXP_exec.
    intros (Hne & Hlow & Hs).
    destruct value as [v|].
    - destruct Hs as (Hv & Hnb & ->).
      rewrite strip_prefix_app.
      rewrite (span_app lower name) by (assumption || reflexivity).
      destruct name as [|c name]; [congruence|]. cbn [is_empty].
      change (jsstring_eqb (str "," ++ v ++ str "]") (str "]")) with false.
      cbv iota.
      rewrite strip_prefix_app.
      apply not_rbracket_Forall in Hnb.
      rewrite (span_app not_rbracket v) by (assumption || reflexivity).
      destruct v as [|cv v]; [congruence|]. reflexivity.
    - subst s. rewrite strip_prefix_app.
      rewrite (span_app lower name) by (assumption || reflexivity).
      destruct name as [|c name]; [congruence|]. reflexivity.
  Qed.

Lemma CQ_TAG_REGEXP_exec_None s :
    CQ_TAG_REGEXP_exec s = None <-> ~ well_formed_tag s.
  Proof.
    split.
    - intros H (name & value & Hg).
      apply CQ_TAG_REGEXP_exec_complete in Hg. congruence.
    - intros H. destruct (CQ_TAG_REGEXP_exec s) as [[name value]|] eqn:E;
        [|reflexivity].
      exfalso. apply H. exists name, value.
      now apply CQ_TAG_REGEXP_exec_sound.
  Qed.

End TagGrammar.

(** ** The entries of a tag token *)

Section Entries.

Lemma indexOf_from_absent (c : char) (s : jsstring) (i : Z) :
    ~ In c s -> indexOf_from [c] s i = (-1)%Z.
  Proof.
    revert i. induction s as [|x s IH]; intros i Hnot; [reflexivity|].
    cbn [indexOf_from startsWith].
    destruct (N.eqb_spec c x) as [->|Hne].
    - exfalso. apply Hnot. now left.
    - cbn [andb]. apply IH. intros H. apply Hnot. now right.
  Qed.

Lemma indexOf_from_first (c : char) (a b : jsstring) (i : Z) :
    ~ In c a ->
    indexOf_from [c] (a ++ c :: b) i = (i + Z.of_nat (length a))%Z.
  Proof.
    revert i. induction a as [|x a IH]; intros i Hnot.
    - cbn [app indexOf_from startsWith]. rewrite N.eqb_refl. simpl. lia.
    - cbn [app indexOf_from startsWith].
      destruct (N.eqb_spec c x) as [->|Hne].
      + exfalso. apply Hnot. now left.
      + cbn [andb]. rewrite IH by (intros H; apply Hnot; now right).
        simpl length. lia.
  Qed.

Lemma substr_all (s : jsstring) : substr s 0 None = s.
  Proof.
    unfold substr. cbv zeta. cbn [Z.ltb Z.compare].
    match goal with |- take (Z.to_nat ?n) (drop (Z.to_nat ?m) _) = _ =>
      replace (Z.to_nat n) with (length s) by lia;
      replace (Z.to_nat m) with 0%nat by lia end.
    change (drop 0 s) with s. apply firstn_all.
  Qed.

Lemma substr_negative_length (s : jsstring) (start : Z) :
    substr s start (Some (-1)%Z) = [].
  Proof.
    unfold substr. cbv zeta.
    replace (Z.min (Z.max (-1) 0) (Z.of_nat (length s))) with 0%Z by lia.
    match goal with |- take (Z.to_nat ?n) _ = _ =>
      replace (Z.to_nat n) with 0%nat by lia end.
    reflexivity.
  Qed.

Lemma substr_prefix (a b : jsstring) :
    substr (a ++ b) 0 (Some (Z.of_nat (length a))) = a.
  Proof.
    unfold substr. cbv zeta. cbn [Z.ltb Z.compare].
    rewrite length_app.
    match goal with |- take (Z.to_nat ?n) (drop (Z.to_nat ?m) _) = _ =>
      replace (Z.to_nat n) with (length a) by lia;
      replace (Z.to_nat m) with 0%nat by lia end.
    change (drop 0 (a ++ b)) with (a ++ b). now rewrite take_app_length.
  Qed.

Lemma substr_suffix (a b : jsstring) :
    substr (a ++ b) (Z.of_nat (length a)) None = b.
  Proof.
    unfold substr. cbv zeta. rewrite length_app.
    destruct (Z.ltb_spec (Z.of_nat (length a)) 0); [lia|].
    match goal with |- take (Z.to_nat ?n) (drop (Z.to_nat ?m) _) = _ =>
      replace (Z.to_nat n) with (length b) by lia;
      replace (Z.to_nat m) with (length a) by lia end.
    rewrite drop_app_length. apply firstn_all.
  Qed.

  (** A piece without [=]: the index is -1, the key is empty and the
      value is the piece. *)
Lemma entry_of_no_equals (v : jsstring) :
    ~ In 61 v -> entry_of v = ([], VStr v).
  Proof.
    intros H. unfold entry_of, indexOf.
    change (str "=") with [61].
    rewrite indexOf_from_absent by assumption.
    now rewrite substr_negative_length, substr_all.
  Qed.

  (** A piece with [=]: the first one separates the key from the value. *)
Lemma entry_of_equals (k v : jsstring) :
    ~ In 61 k -> entry_of (k ++ str "=" ++ v) = (k, VStr v).
  Proof.
    intros H. unfold entry_of, indexOf.
    change (str "=") with [61]. cbn [app].
    rewrite indexOf_from_first by assumption. rewrite Z.add_0_l.
    rewrite substr_prefix. f_equal. f_equal.
    pose proof (substr_suffix (k ++ [61]) v) as Hs.
    rewrite <- app_assoc, length_app in Hs. simpl in Hs.
    rewrite <- Hs at 2. f_equal. lia.
  Qed.

End Entries.

(** ** Running methods in a store *)

Section Running.

Lemma bind_Returns {A B} (m : M A) (f : A -> M B) s a s' :
    m s = (Returns a, s') -> bind m f s = f a s'.
  Proof. intros H. unfold bind. now rewrite H. Qed.

Lemma bind_Throws {A B} (m : M A) (f : A -> M B) s e s' :
    m s = (Throws e, s') -> bind m f s = (Throws e, s').
  Proof. intros H. unfold bind. now rewrite H. Qed.

Lemma lookup_new (s : store) (o : object) : (s ++ [o]) !! length s = Some o.
  Proof. now apply list_lookup_middle. Qed.

Lemma lookup_old (s ext : store) (l : loc) (o : object) :
    s !! l = Some o -> (s ++ ext) !! l = Some o.
  Proof. intros H. now apply lookup_app_l_Some. Qed.

Lemma insert_new (s : store) (o o' : object) :
    <[length s := o']> (s ++ [o]) = s ++ [o'].
  Proof.
    rewrite insert_app_r_alt by lia. now rewrite Nat.sub_diag.
  Qed.

Lemma load_run (s : store) l o : s !! l = Some o -> load l s = (Returns o, s).
  Proof. intros H. unfold load. now rewrite H. Qed.

Lemma Object_entries_run (s : store) l o :
    s !! l = Some o -> Object_entries l s = (Returns (props o), s).
  Proof.
    intros H. unfold Object_entries.
    now rewrite (bind_Returns _ _ _ _ _ (load_run s l o H)).
  Qed.

  (** A loop that updates one object in place. *)
Lemma forEach_modify {A} (f : A -> object -> object) (xs : list A)
        (s : store) l o :
    s !! l = Some o ->
    forEach xs (fun x => modify l (f x)) s
    = (Returns tt, <[l := fold_left (fun o x => f x o) xs o]> s).
  Proof.
    revert s o. induction xs as [|x xs IH]; intros s o H.
    - cbn [forEach fold_left]. unfold ret. now rewrite list_insert_id.
    - cbn [forEach fold_left]. unfold bind at 1, modify at 1. rewrite H.
      rewrite (IH _ (f x o)).
      + now rewrite list_insert_insert_eq.
      + apply list_lookup_insert_eq. now apply lookup_lt_Some in H.
  Qed.

Lemma new_CQTag_run c ty d (s : store) o :
    s !! d = Some o ->
    new_CQTag c ty d s
    = (Returns (Instance c ty d (length s) (List.map fst (props o))),
       s ++ [empty_object]).
  Proof.
    intros H. unfold new_CQTag, bind, alloc.
    now rewrite (Object_entries_run _ d o (lookup_old s _ d o H)).
  Qed.

Lemma new_CQText_run t (s : store) :
    new_CQText t s
    = (Returns (Instance CQText_class (str "text") (length s) (S (length s))
                  [str "text"]),
       s ++ [object_of [(str "text", VStr t)]; empty_object]).
  Proof.
    unfold new_CQText, bind at 1, alloc.
    rewrite (new_CQTag_run _ _ _ _ _ (lookup_new s _)).
    rewrite length_app, <- app_assoc. simpl.
    now rewrite Nat.add_1_r.
  Qed.

End Running.

(** ** The overlaid mapping *)

Section Overlay.

Lemma bind_ext {A B} (m : M A) (f g : A -> M B) s :
    (forall a s', f a s' = g a s') -> bind m f s = bind m g s.
  Proof.
    intros H. unfold bind. destruct (m s) as [[a|e|] s']; auto.
  Qed.

Lemma assign_app o es1 es2 :
    assign o (es1 ++ es2) = assign (assign o es1) es2.
  Proof. unfold assign. apply fold_left_app. Qed.

  (** Reading does not change the store. *)
Lemma this_data_store this s : snd (this_data this s) = s.
  Proof. unfold this_data. now destruct (has_getter _ _). Qed.

Lemma load_store l (s : store) : snd (load l s) = s.
  Proof. unfold load. now destruct (s !! l). Qed.

Lemma getter_store this k s : snd (getter this k s) = s.
  Proof.
    unfold getter, bind. pose proof (this_data_store this s) as H1.
    destruct (this_data this s) as [[d|e|] s1]; simpl in H1; subst; try easy.
    pose proof (load_store d s) as H2.
    destruct (load d s) as [[o|e|] s2]; simpl in H2; subst; easy.
  Qed.

Lemma this_type_store this s : snd (this_type this s) = s.
  Proof.
    unfold this_type. destruct (has_getter _ _); [apply getter_store | easy].
  Qed.

Lemma this_tagName_store this s : snd (this_tagName this s) = s.
  Proof.
    unfold this_tagName. destruct (has_getter _ _);
      [apply getter_store | apply this_type_store].
  Qed.

Lemma this_modifier_store this s : snd (this_modifier this s) = s.
  Proof.
    unfold this_modifier. destruct (has_getter _ _); [|easy].
    unfold bind. pose proof (getter_store this (str "_modifier") s) as H.
    destruct (getter _ _ s) as [[v|e|] s1]; simpl in H; subst; easy.
  Qed.

Lemma own_entries_store src s : snd (own_entries src s) = s.
  Proof.
    destruct src as [l|v]; [|easy]. unfold own_entries, Object_entries, bind.
    pose proof (load_store l s) as H.
    destruct (load l s) as [[o|e|] s1]; simpl in H; subst; easy.
  Qed.

  (** [Object.assign] changes its target only, by a sequence of
      assignments. *)
Lemma Object_assign_shape target srcs (s : store) o :
    s !! target = Some o ->
    exists es, snd (Object_assign target srcs s) = <[target := assign o es]> s.
  Proof.
    unfold Object_assign.
    revert s o. induction srcs as [|src srcs IH]; intros s o H.
    - exists []. simpl. now rewrite list_insert_id.
    - cbn [forEach]. unfold bind at 1 2.
      pose proof (own_entries_store src s) as Hs.
      destruct (own_entries src s) as [[es|e|] s1]; simpl in Hs; subst s1;
        try (exists []; simpl; now rewrite list_insert_id).
      rewrite (forEach_modify (fun kv => Set_property (fst kv) (snd kv))
                 es s target o H).
      fold (assign o es).
      destruct (IH (<[target := assign o es]> s) (assign o es)) as [es' He].
      { apply list_lookup_insert_eq. now apply lookup_lt_Some in H. }
      exists (es ++ es'). rewrite He.
      now rewrite list_insert_insert_eq, assign_app.
  Qed.

Lemma overlaid_shape this (s : store) :
    exists r es,
      overlaid this s = (r, s ++ [assign empty_object es]) /\
      forall o, r = Returns o -> o = length s.
  Proof.
    unfold overlaid, alloc, bind.
    pose proof (this_data_store this (s ++ [empty_object])) as H1.
    destruct (this_data this _) as [[d|e|] s1]; simpl in H1; subst s1;
      try (eexists _, []; split; [reflexivity | discriminate]).
    pose proof (this_modifier_store this (s ++ [empty_object])) as H2.
    destruct (this_modifier this _) as [[m|e|] s1]; simpl in H2; subst s1;
      try (eexists _, []; split; [reflexivity | discriminate]).
    destruct (Object_assign_shape (length s) [FromObject d; m]
                (s ++ [empty_object]) empty_object (lookup_new s _))
      as [es He].
    destruct (Object_assign _ _ _) as [[[]|e|] s1]; simpl in He; subst s1;
      rewrite insert_new; eexists _, es; (split; [reflexivity|]);
      unfold ret; congruence.
  Qed.

End Overlay.

(** ** Properties: keys stay distinct *)

Section Properties.

Lemma has_property_In k ps : has_property k ps = true <-> In k (keys ps).
  Proof.
    induction ps as [|[k' v'] ps IH]; simpl; [easy|].
    rewrite orb_true_iff, IH.
    destruct (jsstring_eqb_spec k' k); intuition congruence.
  Qed.

Lemma has_property_false k ps : has_property k ps = false <-> ~ In k (keys ps).
  Proof.
    rewrite <- has_property_In. destruct (has_property k ps); intuition congruence.
  Qed.

Lemma keys_update k v ps : keys (update_property k v ps) = keys ps.
  Proof.
    induction ps as [|[k' v'] ps IH]; simpl; [reflexivity|].
    destruct (jsstring_eqb k' k); simpl; congruence.
  Qed.

Lemma keys_insert_index n k v ps x :
    In x (keys (insert_index n k v ps)) <-> x = k \/ In x (keys ps).
  Proof.
    induction ps as [|[k' v'] ps IH]; simpl; [intuition|].
    destruct (array_index k') as [n'|]; [destruct (N.ltb n' n)|];
      simpl; rewrite ?IH; intuition.
  Qed.

Lemma NoDup_insert_index n k v ps :
    ~ In k (keys ps) -> List.NoDup (keys ps) ->
    List.NoDup (keys (insert_index n k v ps)).
  Proof.
    induction ps as [|[k' v'] ps IH]; simpl; intros Hk Hnd.
    - constructor; [intros []|constructor].
    - apply List.NoDup_cons_iff in Hnd. destruct Hnd as [Hk' Hnd].
      assert (Hall : List.NoDup (k :: k' :: keys ps)).
      { constructor; [simpl; intuition|]. now constructor. }
      destruct (array_index k') as [n'|]; [destruct (N.ltb n' n)|];
        simpl; try assumption.
      constructor; [|apply IH; intuition].
      rewrite keys_insert_index. intuition.
  Qed.

Lemma NoDup_add_property k v ps :
    ~ In k (keys ps) -> List.NoDup (keys ps) -> List.NoDup (keys (add_property k v ps)).
  Proof.
    intros Hk Hnd. unfold add_property.
    destruct (array_index k); [now apply NoDup_insert_index|].
    unfold keys. rewrite List.map_app. simpl.
    apply List.NoDup_app; [assumption| |].
    - constructor; [intros []|constructor].
    - intros x Hx [<-|[]]. contradiction.
  Qed.

Lemma NoDup_Set_property k v o :
    List.NoDup (keys (props o)) -> List.NoDup (keys (props (Set_property k v o))).
  Proof.
    intros Hnd. unfold Set_property.
    destruct (has_property k (props o)) eqn:Hhas; simpl.
    - now rewrite keys_update.
    - apply has_property_false in Hhas.
      destruct (has_Object_prototype o && _); [destruct v; assumption|].
      simpl. now apply NoDup_add_property.
  Qed.

Lemma NoDup_assign o es :
    List.NoDup (keys (props o)) -> List.NoDup (keys (props (assign o es))).
  Proof.
    revert o. induction es as [|kv es IH]; intros o H; [assumption|].
    apply IH. now apply NoDup_Set_property.
  Qed.

Lemma NoDup_keys_eq ps a b :
    List.NoDup (keys ps) -> In a ps -> In b ps -> fst a = fst b -> a = b.
  Proof.
    induction ps as [|p ps IH]; simpl; [easy|]. intros Hnd Ha Hb Hab.
    apply List.NoDup_cons_iff in Hnd. destruct Hnd as [Hp Hnd].
    destruct Ha as [->|Ha], Hb as [->|Hb]; auto.
    - exfalso. apply Hp. rewrite Hab. now apply in_map.
    - exfalso. apply Hp. rewrite <- Hab. now apply in_map.
  Qed.

Lemma delete_loop_filter qs acc :
    fold_left delete_nullish qs acc
    = List.filter
        (fun kv => negb (existsb (fun q => is_nullish (snd q)
                                           && jsstring_eqb (fst kv) (fst q)) qs))
        acc.
  Proof.
    revert acc. induction qs as [|q qs IH]; intros acc; cbn [fold_left existsb].
    - induction acc as [|a acc IHa]; cbn; [reflexivity | now f_equal].
    - rewrite IH. unfold delete_nullish at 1, delete_property.
      destruct (is_nullish (snd q)).
      + cbn [andb]. induction acc as [|a acc IHa]; [reflexivity|].
        cbn [List.filter].
        destruct (jsstring_eqb (fst a) (fst q)); cbn [negb orb];
          [assumption|].
        cbn [List.filter]. destruct (existsb _ qs); cbn [negb]; congruence.
      + apply filter_ext. intros a. reflexivity.
  Qed.

Lemma delete_loop ps :
    List.NoDup (keys ps) ->
    fold_left delete_nullish ps ps = List.filter not_nullish ps.
  Proof.
    intros Hnd. rewrite delete_loop_filter. apply filter_ext_in.
    intros kv Hkv. unfold not_nullish. f_equal.
    destruct (is_nullish (snd kv)) eqn:Hn.
    - apply existsb_exists. exists kv. rewrite Hn, jsstring_eqb_refl.
      now split.
    - apply not_true_is_false. intros H. apply existsb_exists in H.
      destruct H as (q & Hq & Hc). apply andb_true_iff in Hc.
      destruct Hc as [Hqn Heq].
      destruct (jsstring_eqb_spec (fst kv) (fst q)) as [E|]; [|discriminate].
      rewrite (NoDup_keys_eq ps kv q Hnd Hkv Hq E) in Hn. congruence.
  Qed.

End Properties.

(** ** The two serialisations *)

Section Serialisation.

Lemma append_entries es r :
    fold_left append_entry es r = r ++ flat_map emit (List.filter defined es).
  Proof.
    revert r. induction es as [|kv es IH]; intros r; cbn [fold_left].
    - simpl. now rewrite app_nil_r.
    - rewrite IH. unfold append_entry. cbn [List.filter].
      unfold defined at 2.
      destruct (is_undefined (snd kv)); cbn [negb]; [reflexivity|].
      cbn [flat_map]. unfold emit. now rewrite <- !app_assoc.
  Qed.

Lemma forEach_delete es (s : store) l o :
    s !! l = Some o ->
    forEach es (fun kv =>
                  if is_nullish (snd kv)
                  then modify l (fun ob => Obj (has_Object_prototype ob)
                                             (delete_property (fst kv) (props ob)))
                  else ret tt) s
    = (Returns tt,
       <[l := Obj (has_Object_prototype o)
                (fold_left delete_nullish es (props o))]> s).
  Proof.
    revert s o. induction es as [|kv es IH]; intros s o H.
    - cbn [forEach fold_left]. unfold ret. destruct o. now rewrite list_insert_id.
    - cbn [forEach fold_left]. unfold bind. unfold delete_nullish at 2.
      destruct (is_nullish (snd kv)).
      + unfold modify. rewrite H.
        rewrite (IH _ (Obj (has_Object_prototype o)
                         (delete_property (fst kv) (props o)))).
        * now rewrite list_insert_insert_eq.
        * apply list_lookup_insert_eq. now apply lookup_lt_Some in H.
      + unfold ret. now apply IH.
  Qed.

Lemma toString_filter (this : CQTag) (s : store) :
    CQTag_toString this s
    = (let* ty := this_type this in
       let* o := overlaid this in
       let* entries := Object_entries o in
       ret (str "[CQ:" ++ ToString ty
              ++ flat_map emit (List.filter defined entries) ++ str "]")) s.
  Proof.
    unfold CQTag_toString.
    apply bind_ext; intros ty s1. apply bind_ext; intros o s2.
    apply bind_ext; intros es s3.
    now rewrite append_entries, <- !app_assoc.
  Qed.

Lemma toTag_filter (this : CQTag) (s : store) :
    CQTag_toTag this s
    = (let* o := overlaid this in
       let* entries := Object_entries o in
       let* _ := set_props o (List.filter not_nullish entries) in
       let* ty := this_tagName this in
       ret {| type := ty; data := o |}) s.
  Proof.
    unfold CQTag_toTag.
    destruct (overlaid_shape this s) as (r & es & Hrun & Ho).
    unfold bind at 1 5. rewrite Hrun.
    destruct r as [o|e|]; try reflexivity.
    rewrite (Ho o eq_refl).
    set (ob := assign empty_object es).
    unfold bind at 1 4.
    rewrite (Object_entries_run _ _ ob (lookup_new s ob)).
    unfold bind at 1 3.
    rewrite (forEach_delete _ _ _ ob (lookup_new s ob)).
    unfold set_props, modify. rewrite lookup_new.
    rewrite delete_loop; [reflexivity|].
    apply NoDup_assign. constructor.
  Qed.

End Serialisation.

(** ** The methods on an instance with its two mappings *)

Section Methods.
Variables (this : CQTag) (s : store) (d m : object).
Hypothesis Hd : s !! _data this = Some d.
Hypothesis Hm : s !! _modifier this = Some m.

Lemma this_data_run :
    has_getter this (str "_data") = false ->
    forall ext, this_data this (s ++ ext) = (Returns (_data this), s ++ ext).
  Proof. intros H ext. unfold this_data. now rewrite H. Qed.

Lemma this_data_overflow :
    has_getter this (str "_data") = true ->
    forall s', this_data this s' = (Throws RangeError, s').
  Proof. intros H s'. unfold this_data. now rewrite H. Qed.

Lemma getter_run k :
    has_getter this (str "_data") = false ->
    forall ext,
      getter this k (s ++ ext)
      = (Returns (get_property k (props d)), s ++ ext).
  Proof.
    intros H ext. unfold getter.
    rewrite (bind_Returns _ _ _ _ _ (this_data_run H ext)).
    now rewrite (bind_Returns _ _ _ _ _
                   (load_run _ _ _ (lookup_old s ext _ _ Hd))).
  Qed.

Lemma getter_overflow k :
    has_getter this (str "_data") = true ->
    forall s', getter this k s' = (Throws RangeError, s').
  Proof.
    intros H s'. unfold getter.
    now rewrite (bind_Throws _ _ _ _ _ (this_data_overflow H s')).
  Qed.

Lemma this_type_run :
    has_getter this (str "_data") = false ->
    forall ext, this_type this (s ++ ext) = (Returns (type_of this d), s ++ ext).
  Proof.
    intros H ext. unfold this_type, type_of.
    destruct (has_getter this (str "_type")); [now apply getter_run|easy].
  Qed.

Lemma this_tagName_run :
    has_getter this (str "_data") = false ->
    forall ext,
      this_tagName this (s ++ ext) = (Returns (tagName_of this d), s ++ ext).
  Proof.
    intros H ext. unfold this_tagName, tagName_of.
    destruct (has_getter this (str "tagName"));
      [now apply getter_run | now apply this_type_run].
  Qed.

Lemma assign_source_run src es o :
    own_entries src (s ++ [o]) = (Returns es, s ++ [o]) ->
    (let* entries := own_entries src in
     forEach entries (fun kv =>
       modify (length s) (Set_property (fst kv) (snd kv)))) (s ++ [o])
    = (Returns tt, s ++ [assign o es]).
  Proof.
    intros H. rewrite (bind_Returns _ _ _ _ _ H).
    rewrite (forEach_modify (fun kv => Set_property (fst kv) (snd kv))
               es _ _ o (lookup_new s o)).
    now rewrite insert_new.
  Qed.

Lemma overlaid_run :
    has_getter this (str "_data") = false ->
    overlaid this s = (Returns (length s), s ++ [overlay_of this d m]).
  Proof.
    intros H. unfold overlaid, alloc. unfold bind at 1.
    rewrite (bind_Returns _ _ _ _ _ (this_data_run H [empty_object])).
    assert (Hmod : this_modifier this (s ++ [empty_object])
                   = (Returns (if has_getter this (str "_modifier")
                               then FromValue
                                      (get_property (str "_modifier") (props d))
                               else FromObject (_modifier this)),
                      s ++ [empty_object])).
    { unfold this_modifier. destruct (has_getter this (str "_modifier")).
      - now rewrite (bind_Returns _ _ _ _ _ (getter_run _ H [empty_object])).
      - reflexivity. }
    rewrite (bind_Returns _ _ _ _ _ Hmod).
    set (src := if has_getter this (str "_modifier")
                then FromValue (get_property (str "_modifier") (props d))
                else FromObject (_modifier this)).
    assert (H1 : own_entries (FromObject (_data this)) (s ++ [empty_object])
                 = (Returns (props d), s ++ [empty_object]))
      by (apply Object_entries_run; now apply lookup_old).
    assert (H2 : own_entries src (s ++ [assign empty_object (props d)])
                 = (Returns (if has_getter this (str "_modifier")
                             then primitive_entries
                                    (get_property (str "_modifier") (props d))
                             else props m),
                    s ++ [assign empty_object (props d)])).
    { subst src. destruct (has_getter this (str "_modifier")); [reflexivity|].
      apply Object_entries_run. now apply lookup_old. }
    assert (Hassign : Object_assign (length s) [FromObject (_data this); src]
                        (s ++ [empty_object])
                      = (Returns tt, s ++ [overlay_of this d m])).
    { unfold Object_assign. cbn [forEach].
      rewrite (bind_Returns _ _ _ _ _ (assign_source_run _ _ _ H1)).
      now rewrite (bind_Returns _ _ _ _ _ (assign_source_run _ _ _ H2)). }
    now rewrite (bind_Returns _ _ _ _ _ Hassign).
  Qed.

Lemma overlaid_overflow :
    has_getter this (str "_data") = true ->
    overlaid this s = (Throws RangeError, s ++ [empty_object]).
  Proof.
    intros H. unfold overlaid, alloc. unfold bind at 1.
    now rewrite (bind_Throws _ _ _ _ _ (this_data_overflow H _)).
  Qed.

End Methods.

Section Outcomes.
Variables (this : CQTag) (s : store) (d m : object).
Hypothesis Hd : s !! _data this = Some d.
Hypothesis Hm : s !! _modifier this = Some m.

Lemma CQTag_toString_run :
    has_getter this (str "_data") = false ->
    CQTag_toString this s
    = (wire_text this d m, s ++ [overlay_of this d m]).
  Proof.
    intros H. rewrite toString_filter.
    pose proof (this_type_run this s d Hd H []) as Hty.
    rewrite app_nil_r in Hty. rewrite (bind_Returns _ _ _ _ _ Hty).
    rewrite (bind_Returns _ _ _ _ _ (overlaid_run this s d m Hd Hm H)).
    rewrite (bind_Returns _ _ _ _ _
               (Object_entries_run _ _ _ (lookup_new s _))).
    unfold wire_text. now rewrite H.
  Qed.

Lemma CQTag_toString_overflow :
    has_getter this (str "_data") = true ->
    exists ext, CQTag_toString this s = (Throws RangeError, s ++ ext).
  Proof.
    intros H. unfold CQTag_toString, this_type.
    destruct (has_getter this (str "_type")).
    - exists []. rewrite app_nil_r.
      now rewrite (bind_Throws _ _ _ _ _ (getter_overflow this _ H s)).
    - exists [empty_object]. unfold bind at 1. unfold ret at 1.
      now rewrite (bind_Throws _ _ _ _ _ (overlaid_overflow this s H)).
  Qed.

Lemma CQTag_toString_result :
    fst (CQTag_toString this s) = wire_text this d m.
  Proof.
    destruct (has_getter this (str "_data")) eqn:H.
    - destruct (CQTag_toString_overflow H) as [ext ->].
      unfold wire_text. now rewrite H.
    - now rewrite CQTag_toString_run.
  Qed.

Lemma CQTag_toTag_run :
    has_getter this (str "_data") = false ->
    CQTag_toTag this s
    = (Returns {| type := tagName_of this d; data := length s |},
       s ++ [Obj (has_Object_prototype (overlay_of this d m))
               (List.filter not_nullish (props (overlay_of this d m)))]).
  Proof.
    intros H. rewrite toTag_filter.
    rewrite (bind_Returns _ _ _ _ _ (overlaid_run this s d m Hd Hm H)).
    rewrite (bind_Returns _ _ _ _ _
               (Object_entries_run _ _ _ (lookup_new s _))).
    unfold set_props, modify, bind at 1. rewrite lookup_new, insert_new.
    now rewrite (bind_Returns _ _ _ _ _ (this_tagName_run this s d Hd H _)).
  Qed.

Lemma CQTag_toTag_overflow :
    has_getter this (str "_data") = true ->
    CQTag_toTag this s = (Throws RangeError, s ++ [empty_object]).
  Proof.
    intros H. unfold CQTag_toTag.
    now rewrite (bind_Throws _ _ _ _ _ (overlaid_overflow this s H)).
  Qed.

Lemma CQTag_toTag_content :
    content (CQTag_toTag this) s
    = match structured this d m with
      | Returns (ty, es) => Returns (ty, Some es)
      | Throws e => Throws e
      | Dangling => Dangling
      end.
  Proof.
    unfold content, structured.
    destruct (has_getter this (str "_data")) eqn:H.
    - now rewrite CQTag_toTag_overflow.
    - rewrite CQTag_toTag_run by assumption. cbn [type data].
      now rewrite lookup_new.
  Qed.

Lemma CQText_toString_run :
    CQText_toString this s
    = (if has_getter this (str "_data") then Throws RangeError
       else Returns (get_property (str "text") (props d)), s).
  Proof.
    unfold CQText_toString. destruct (has_getter this (str "_data")) eqn:H.
    - now rewrite (bind_Throws _ _ _ _ _ (this_data_overflow this H s)).
    - pose proof (this_data_run this s H []) as Hrun.
      rewrite app_nil_r in Hrun. rewrite (bind_Returns _ _ _ _ _ Hrun).
      now rewrite (bind_Returns _ _ _ _ _ (load_run _ _ _ Hd)).
  Qed.

  (** Calling a method that an accessor hides: the accessor is read,
      and what it yields is no function. *)
Lemma hidden_method_run {A} name :
    bind (getter this name) (fun _ => @throw A TypeError) s
    = (Throws (if has_getter this (str "_data") then RangeError
               else TypeError), s).
  Proof.
    destruct (has_getter this (str "_data")) eqn:H.
    - now rewrite (bind_Throws _ _ _ _ _ (getter_overflow this name H s)).
    - pose proof (getter_run this s d Hd name H []) as Hrun.
      rewrite app_nil_r in Hrun.
      now rewrite (bind_Returns _ _ _ _ _ Hrun).
  Qed.

  (** The two calls on an instance whose mappings are in the store: the
      store grows and keeps its objects, and the outcome is a function
      of the instance and of its two mappings. *)
Lemma toString_frame : exists ext, snd (toString this s) = s ++ ext.
  Proof.
    unfold toString. destruct (has_getter this (str "toString"));
      [exists []; now rewrite hidden_method_run, app_nil_r|].
    destruct (class_of this).
    - unfold bind. destruct (has_getter this (str "_data")) eqn:H.
      + destruct (CQTag_toString_overflow H) as [ext ->]. now exists ext.
      + rewrite CQTag_toString_run by assumption. unfold wire_text.
        rewrite H. now eexists.
    - rewrite CQText_toString_run. exists []. now rewrite app_nil_r.
  Qed.

Lemma toTag_frame : exists ext, snd (toTag this s) = s ++ ext.
  Proof.
    unfold toTag. destruct (has_getter this (str "toTag"));
      [exists []; now rewrite hidden_method_run, app_nil_r|].
    destruct (has_getter this (str "_data")) eqn:H.
    - rewrite CQTag_toTag_overflow by assumption. now eexists.
    - rewrite CQTag_toTag_run by assumption. now eexists.
  Qed.

Lemma toString_outcome :
    fst (toString this s)
    = if has_getter this (str "toString")
      then Throws (if has_getter this (str "_data") then RangeError
                   else TypeError)
      else match class_of this with
           | CQTag_class =>
               match wire_text this d m with
               | Returns w => Returns (VStr w)
               | Throws e => Throws e
               | Dangling => Dangling
               end
           | CQText_class =>
               if has_getter this (str "_data") then Throws RangeError
               else Returns (get_property (str "text") (props d))
           end.
  Proof.
    unfold toString. destruct (has_getter this (str "toString"));
      [now rewrite hidden_method_run|].
    destruct (class_of this).
    - rewrite <- CQTag_toString_result. unfold bind.
      now destruct (CQTag_toString this s) as [[w|e|] s'].
    - now rewrite CQText_toString_run.
  Qed.

Lemma toTag_outcome :
    content (toTag this) s
    = if has_getter this (str "toTag")
      then Throws (if has_getter this (str "_data") then RangeError
                   else TypeError)
      else match structured this d m with
           | Returns (ty, es) => Returns (ty, Some es)
           | Throws e => Throws e
           | Dangling => Dangling
           end.
  Proof.
    unfold toTag. destruct (has_getter this (str "toTag"));
      [unfold content; now rewrite hidden_method_run|].
    apply CQTag_toTag_content.
  Qed.

End Outcomes.

(** ** The order of the overlaid entries *)

Section OverlayOrder.

Lemma jsstring_eqb_neq a b : a <> b -> jsstring_eqb a b = false.
  Proof. intros H. destruct (jsstring_eqb_spec a b); congruence. Qed.

Lemma Set_property_plain kv ps :
    plain_key (fst kv) ->
    Set_property (fst kv) (snd kv) (Obj true ps) = Obj true (upsert ps kv).
  Proof.
    intros [Hidx Hproto]. unfold Set_property, upsert. cbn [props has_Object_prototype].
    destruct (has_property (fst kv) ps); [reflexivity|].
    rewrite (jsstring_eqb_neq _ _ Hproto). cbn [andb].
    unfold add_property. rewrite Hidx. now destruct kv.
  Qed.

Lemma assign_plain es ps :
    Forall (fun kv => plain_key (fst kv)) es ->
    assign (Obj true ps) es = Obj true (fold_left upsert es ps).
  Proof.
    intros H. revert ps. induction H as [|kv es Hkv Hes IH]; intros ps.
    - reflexivity.
    - unfold assign in *. cbn [fold_left].
      now rewrite Set_property_plain, IH.
  Qed.

Lemma has_property_update x k v ps :
    has_property x (update_property k v ps) = has_property x ps.
  Proof.
    induction ps as [|[k' v'] ps IH]; [reflexivity|]. cbn [update_property].
    destruct (jsstring_eqb k' k); cbn [has_property]; congruence.
  Qed.

Lemma has_property_app x ps qs :
    has_property x (ps ++ qs) = has_property x ps || has_property x qs.
  Proof.
    induction ps as [|[k' v'] ps IH]; [reflexivity|]. cbn [app has_property].
    now rewrite IH, orb_assoc.
  Qed.

Lemma overridden_cons_other k v es kv :
    fst kv <> k -> overridden ((k, v) :: es) kv = overridden es kv.
  Proof.
    intros H. unfold overridden. cbn [has_property get_property].
    rewrite (jsstring_eqb_neq k (fst kv)) by congruence. reflexivity.
  Qed.

Lemma map_overridden_other k v es acc :
    ~ In k (keys acc) ->
    List.map (overridden ((k, v) :: es)) acc = List.map (overridden es) acc.
  Proof.
    intros H. apply map_ext_in. intros kv Hkv.
    apply overridden_cons_other. intros E. apply H. rewrite <- E.
    now apply in_map.
  Qed.

Lemma map_overridden_update k v v0 es acc :
    has_property k es = false -> List.NoDup (keys acc) -> In (k, v0) acc ->
    List.map (overridden es) (update_property k v acc)
    = List.map (overridden ((k, v) :: es)) acc.
  Proof.
    intros Hes. induction acc as [|[k' v'] acc IH]; intros Hnd Hin; [easy|].
    apply List.NoDup_cons_iff in Hnd. destruct Hnd as [Hk' Hnd].
    cbn [update_property]. destruct (jsstring_eqb_spec k' k) as [->|Hne].
    - cbn [List.map]. f_equal.
      + unfold overridden. cbn [fst snd has_property get_property].
        now rewrite Hes, jsstring_eqb_refl.
      + symmetry. now apply map_overridden_other.
    - cbn [List.map]. f_equal.
      + symmetry. now apply overridden_cons_other.
      + apply IH; [assumption|]. destruct Hin as [E|Hin]; [congruence|assumption].
  Qed.

Lemma fold_upsert es acc :
    List.NoDup (keys acc) -> List.NoDup (keys es) ->
    fold_left upsert es acc = overlay_spec acc es.
  Proof.
    unfold overlay_spec.
    revert acc. induction es as [|[k v] es IH]; intros acc Hacc Hes.
    - cbn [fold_left List.filter]. rewrite app_nil_r.
      rewrite <- (map_id acc) at 1. apply map_ext. now intros [k v].
    - unfold keys in Hes. cbn [List.map fst] in Hes. fold (keys es) in Hes.
      apply List.NoDup_cons_iff in Hes. destruct Hes as [Hk Hes].
      apply has_property_false in Hk.
      cbn [fold_left]. unfold upsert at 2. cbn [fst snd].
      destruct (has_property k acc) eqn:Hhas.
      + rewrite IH; [|now rewrite keys_update|assumption].
        cbn [List.filter fst]. rewrite Hhas. cbn [negb].
        apply has_property_In in Hhas. apply in_map_iff in Hhas.
        destruct Hhas as ([k0 v0] & E & Hin). simpl in E. subst k0.
        rewrite (map_overridden_update k v v0) by assumption.
        f_equal. apply filter_ext. intros kv.
        now rewrite has_property_update.
      + assert (Hk' : ~ In k (keys acc)) by now apply has_property_false.
        rewrite IH; [|unfold keys; rewrite List.map_app;
                      apply List.NoDup_app;
                      [assumption | constructor; [intros []|constructor]
                      | intros x Hx [<-|[]]; contradiction]
                     |assumption].
        rewrite List.map_app. cbn [List.map List.filter fst].
        rewrite Hhas. cbn [negb]. rewrite <- app_assoc. cbn [app].
        rewrite (map_overridden_other k v es acc Hk').
        f_equal. f_equal.
        * unfold overridden. cbn [fst snd]. now rewrite Hk.
        * apply filter_ext_in. intros kv Hkv.
          rewrite has_property_app. cbn [has_property].
          rewrite (jsstring_eqb_neq k (fst kv)), !orb_false_r; [reflexivity|].
          intros E. apply has_property_false in Hk. apply Hk.
          rewrite E. now apply in_map.
  Qed.

  (** With ordinary names for keys, [Object.assign({}, d, m)] is the
      overlay of the specification. *)
Lemma assign_overlay (d m : properties) :
    List.NoDup (keys d) -> List.NoDup (keys m) ->
    (forall k, In k (keys d ++ keys m) -> plain_key k) ->
    assign (assign empty_object d) m = Obj true (overlay_spec d m).
  Proof.
    intros Hd Hm Hplain. unfold empty_object.
    rewrite assign_plain.
    2:{ apply Forall_forall. intros kv Hkv. apply Hplain, in_or_app. left.
        apply list_elem_of_In in Hkv. now apply in_map. }
    rewrite assign_plain.
    2:{ apply Forall_forall. intros kv Hkv. apply Hplain, in_or_app. right.
        apply list_elem_of_In in Hkv. now apply in_map. }
    f_equal.
    assert (E : fold_left upsert d [] = d).
    { rewrite fold_upsert by (assumption || constructor).
      unfold overlay_spec. cbn [List.map app]. clear.
      induction d as [|kv d' IH]; [reflexivity|].
      cbn [List.filter has_property negb]. now f_equal. }
    rewrite E. now apply fold_upsert.
  Qed.

End OverlayOrder.

(** ** Objects built from entries *)

Section ObjectOf.

Lemma get_property_app k ps qs :
    get_property k (ps ++ qs)
    = if has_property k ps then get_property k ps else get_property k qs.
  Proof.
    induction ps as [|[k' v'] ps IH]; [reflexivity|].
    cbn [app get_property has_property].
    destruct (jsstring_eqb k' k); [reflexivity|exact IH].
  Qed.

Lemma get_property_absent k ps :
    has_property k ps = false -> get_property k ps = VUndefined.
  Proof.
    induction ps as [|[k' v'] ps IH]; [reflexivity|].
    cbn [has_property get_property]. intros H.
    apply orb_false_iff in H. destruct H as [-> H]. now apply IH.
  Qed.

Lemma get_update_same k v ps :
    has_property k ps = true -> get_property k (update_property k v ps) = v.
  Proof.
    induction ps as [|[k' v'] ps IH]; [discriminate|].
    cbn [has_property update_property].
    destruct (jsstring_eqb k' k) eqn:E; cbn [get_property]; rewrite E;
      [reflexivity | exact IH].
  Qed.

Lemma get_update_other k k' v ps :
    k <> k' -> get_property k (update_property k' v ps) = get_property k ps.
  Proof.
    intros Hne. induction ps as [|[k0 v0] ps IH]; [reflexivity|].
    cbn [update_property].
    destruct (jsstring_eqb_spec k0 k') as [->|H0]; cbn [get_property].
    - now rewrite (jsstring_eqb_neq k' k) by congruence.
    - now rewrite IH.
  Qed.

Lemma get_insert_index n k k' v ps :
    has_property k' ps = false ->
    get_property k (insert_index n k' v ps)
    = if jsstring_eqb k' k then v else get_property k ps.
  Proof.
    induction ps as [|[k0 v0] ps IH]; [reflexivity|].
    cbn [insert_index has_property]. intros Hnew.
    apply orb_false_iff in Hnew. destruct Hnew as [H0 Hnew].
    destruct (array_index k0) as [n0|]; [destruct (N.ltb n0 n)|];
      try reflexivity.
    cbn [get_property]. rewrite (IH Hnew).
    destruct (jsstring_eqb_spec k0 k) as [->|H1]; [|reflexivity].
    now rewrite (jsstring_eqb_sym k' k), H0.
  Qed.

Lemma get_define k k' v ps :
    get_property k (define_property k' v ps)
    = if jsstring_eqb k' k then v else get_property k ps.
  Proof.
    unfold define_property.
    destruct (has_property k' ps) eqn:Hhas.
    - destruct (jsstring_eqb_spec k' k) as [->|Hne].
      + now apply get_update_same.
      + apply get_update_other. congruence.
    - unfold add_property. destruct (array_index k') as [n|].
      + now apply get_insert_index.
      + rewrite get_property_app. cbn [get_property].
        destruct (jsstring_eqb_spec k' k) as [->|Hne].
        * now rewrite Hhas.
        * destruct (has_property k ps) eqn:E; [reflexivity|].
          symmetry. now apply get_property_absent.
  Qed.

Lemma has_define k k' v ps :
    has_property k (define_property k' v ps)
    = jsstring_eqb k' k || has_property k ps.
  Proof.
    unfold define_property.
    destruct (has_property k' ps) eqn:Hhas.
    - rewrite has_property_update.
      destruct (jsstring_eqb_spec k' k) as [->|Hne]; [|reflexivity].
      now rewrite Hhas.
    - destruct (has_property k (add_property k' v ps)) eqn:E.
      + apply has_property_In in E. unfold add_property in E.
        destruct (array_index k') as [n|].
        * apply keys_insert_index in E. destruct E as [->|E].
          -- now rewrite jsstring_eqb_refl.
          -- apply has_property_In in E. rewrite E. now rewrite orb_true_r.
        * unfold keys in E. rewrite List.map_app in E.
          apply in_app_or in E. destruct E as [E|[<-|[]]].
          -- apply has_property_In in E. rewrite E. now rewrite orb_true_r.
          -- now rewrite jsstring_eqb_refl.
      + apply has_property_false in E. symmetry. apply orb_false_iff.
        unfold add_property in E. split.
        * apply jsstring_eqb_neq. intros ->. apply E.
          destruct (array_index k) as [n|].
          -- apply keys_insert_index. now left.
          -- unfold keys. rewrite List.map_app. apply in_or_app. right.
             now left.
        * apply has_property_false. intros Hin. apply E.
          destruct (array_index k') as [n|].
          -- apply keys_insert_index. now right.
          -- unfold keys. rewrite List.map_app. apply in_or_app. now left.
  Qed.

  (** [Object.fromEntries]: a key of the entries is a key of the object,
      and its value is that of the last entry with this key. *)
Lemma fold_define_has k es ps :
    has_property k
      (fold_left (fun ps kv => define_property (fst kv) (snd kv) ps) es ps)
    = has_property k es || has_property k ps.
  Proof.
    revert ps. induction es as [|[k' v'] es IH]; intros ps; [reflexivity|].
    cbn [fold_left has_property fst snd]. rewrite IH, has_define.
    destruct (jsstring_eqb k' k), (has_property k es); reflexivity.
  Qed.

Lemma fold_define_other k es ps :
    has_property k es = false ->
    get_property k
      (fold_left (fun ps kv => define_property (fst kv) (snd kv) ps) es ps)
    = get_property k ps.
  Proof.
    revert ps. induction es as [|[k' v'] es IH]; intros ps H; [reflexivity|].
    cbn [has_property] in H. apply orb_false_iff in H. destruct H as [H1 H2].
    cbn [fold_left fst snd]. rewrite (IH _ H2), get_define. now rewrite H1.
  Qed.

Lemma object_of_last k v before after :
    has_property k after = false ->
    get_property k (props (object_of (before ++ (k, v) :: after))) = v.
  Proof.
    intros H. unfold object_of. cbn [props].
    rewrite fold_left_app. cbn [fold_left fst snd].
    rewrite (fold_define_other _ _ _ H), get_define.
    now rewrite jsstring_eqb_refl.
  Qed.

Lemma object_of_has k es :
    has_property k (props (object_of es)) = has_property k es.
  Proof.
    unfold object_of. cbn [props]. rewrite fold_define_has.
    apply orb_false_r.
  Qed.

End ObjectOf.

(** ** The parser of one token *)

Section ParseToken.
Variables (tok : jsstring) (s : store).

Lemma parseToken_literal :
    CQ_TAG_REGEXP_exec tok = None ->
    parseToken tok s = (Returns (text_instance (length s)), s ++ text_objects tok).
  Proof.
    intros H. unfold parseToken. rewrite H. apply new_CQText_run.
  Qed.

Lemma parseToken_attributes name value :
    CQ_TAG_REGEXP_exec tok = Some (name, Some value) ->
    let base := object_of (List.map entry_of (split_char 44 [] value)) in
    parseToken tok s
    = (Returns (Instance CQTag_class name (length s) (S (length s))
                  (keys (props base))),
       s ++ [base; empty_object]).
  Proof.
    intros H base. unfold parseToken. rewrite H.
    unfold Object_fromEntries, bind at 1, alloc.
    rewrite (new_CQTag_run _ _ _ _ _ (lookup_new s _)).
    rewrite length_app, <- app_assoc. simpl.
    now rewrite Nat.add_1_r.
  Qed.

Lemma parseToken_bare name :
    CQ_TAG_REGEXP_exec tok = Some (name, None) ->
    parseToken tok s
    = (Returns (Instance CQTag_class name (length s) (S (length s)) []),
       s ++ [empty_object; empty_object]).
  Proof.
    intros H. unfold parseToken. rewrite H.
    unfold bind at 1, alloc.
    rewrite (new_CQTag_run _ _ _ _ _ (lookup_new s _)).
    rewrite length_app, <- app_assoc. simpl.
    now rewrite Nat.add_1_r.
  Qed.

End ParseToken.

Section TextInstance.
Variables (s : store) (txt : jsstring).

Lemma text_instance_data ext :
    (s ++ text_objects txt ++ ext) !! _data (text_instance (length s))
    = Some (object_of [(str "text", VStr txt)]).
  Proof. now apply list_lookup_middle. Qed.

End TextInstance.

(** ** The overlaid value of a key *)

Section OverlayLookup.

Lemma last_value_snoc k es kv :
  last_value k (es ++ [kv])
  = if jsstring_eqb (fst kv) k then snd kv else last_value k es.
Proof. unfold last_value. rewrite fold_left_app. reflexivity. Qed.

Lemma object_of_snoc es kv :
  props (object_of (es ++ [kv]))
  = define_property (fst kv) (snd kv) (props (object_of es)).
Proof. unfold object_of. cbn [props]. now rewrite fold_left_app. Qed.

Lemma get_object_of k es :
  get_property k (props (object_of es)) = last_value k es.
Proof.
  induction es as [|kv es IH] using rev_ind; [reflexivity|].
  rewrite object_of_snoc, last_value_snoc, get_define. now rewrite IH.
Qed.

Lemma get_fold_define k es ps :
  get_property k
    (fold_left (fun ps kv => define_property (fst kv) (snd kv) ps) es ps)
  = if has_property k es then last_value k es else get_property k ps.
Proof.
  induction es as [|kv es IH] using rev_ind; [reflexivity|].
  rewrite fold_left_app. cbn [fold_left].
  rewrite get_define, last_value_snoc, has_property_app, IH.
  destruct kv as [k' v']. cbn [has_property fst snd].
  destruct (jsstring_eqb k' k); [now rewrite orb_true_r|].
  now rewrite !orb_false_r.
Qed.

Lemma fold_last_value k es acc :
  List.NoDup (keys es) ->
  fold_left (fun acc kv => if jsstring_eqb (fst kv) k then snd kv else acc)
    es acc
  = if has_property k es then get_property k es else acc.
Proof.
  revert acc. induction es as [|[k' v'] es IH]; intros acc Hnd;
    [reflexivity|].
  cbn [keys List.map fst] in Hnd. apply List.NoDup_cons_iff in Hnd.
  destruct Hnd as [Hk' Hnd].
  cbn [fold_left has_property get_property fst snd]. rewrite (IH _ Hnd).
  destruct (jsstring_eqb_spec k' k) as [->|Hne]; [|reflexivity].
  cbn [orb]. apply has_property_false in Hk'. now rewrite Hk'.
Qed.

Lemma last_value_distinct k es :
  List.NoDup (keys es) -> last_value k es = get_property k es.
Proof.
  intros Hnd. unfold last_value. rewrite (fold_last_value k es _ Hnd).
  destruct (has_property k es) eqn:H; [reflexivity|].
  now rewrite get_property_absent.
Qed.

Lemma In_get_property ps k v :
  List.NoDup (keys ps) ->
  In (k, v) ps <-> has_property k ps = true /\ get_property k ps = v.
Proof.
  induction ps as [|[k' v'] ps IH]; intros Hnd.
  - split; [intros [] | intros [H _]; discriminate].
  - cbn [keys List.map fst] in Hnd. apply List.NoDup_cons_iff in Hnd.
    destruct Hnd as [Hk' Hnd]. specialize (IH Hnd).
    cbn [In has_property get_property].
    destruct (jsstring_eqb_spec k' k) as [->|Hne]; cbn [orb].
    + split.
      * intros [E|Hin]; [now inversion E|].
        exfalso. apply Hk'. now apply (in_map fst) in Hin.
      * intros [_ ->]. now left.
    + rewrite <- IH. split; [|tauto].
      intros [E|Hin]; [inversion E; congruence|assumption].
Qed.

Lemma Set_property_define k v o :
  k <> str "__proto__" ->
  Set_property k v o
  = Obj (has_Object_prototype o) (define_property k v (props o)).
Proof.
  intros Hk. unfold Set_property, define_property.
  destruct (has_property k (props o)); [reflexivity|].
  now rewrite (jsstring_eqb_neq _ _ Hk), andb_false_r.
Qed.

Lemma assign_define o es :
  has_property (str "__proto__") es = false ->
  assign o es
  = Obj (has_Object_prototype o)
      (fold_left (fun ps kv => define_property (fst kv) (snd kv) ps) es
         (props o)).
Proof.
  revert o. induction es as [|[k v] es IH]; intros o H.
  - now destruct o.
  - cbn [has_property] in H. apply orb_false_iff in H. destruct H as [Hk H].
    unfold assign in *. cbn [fold_left fst snd].
    rewrite Set_property_define
      by (intros ->; now rewrite jsstring_eqb_refl in Hk).
    now rewrite (IH _ H).
Qed.

(** The entries of [Object.assign({}, base, override)] when no key is
    [__proto__]. *)
Lemma assign_overlaid_entries (d m : properties) :
  List.NoDup (keys d) -> List.NoDup (keys m) ->
  has_property (str "__proto__") d = false ->
  has_property (str "__proto__") m = false ->
  overlaid_entries d m (props (assign (assign empty_object d) m)).
Proof.
  intros Hnd Hnm Hpd Hpm. split.
  - apply NoDup_assign, NoDup_assign. constructor.
  - intros k v.
    rewrite In_get_property by (apply NoDup_assign, NoDup_assign; constructor).
    rewrite (assign_define _ m Hpm), (assign_define _ d Hpd).
    cbn [props has_Object_prototype empty_object].
    rewrite fold_define_has, fold_define_has, !get_fold_define.
    rewrite in_app_iff, <- !has_property_In. unfold overlaid_value.
    rewrite (last_value_distinct k m Hnm), (last_value_distinct k d Hnd).
    cbn [has_property get_property]. rewrite orb_false_r.
    destruct (has_property k m) eqn:Hm, (has_property k d) eqn:Hd;
      cbn [orb]; try (split; intros [_ <-]; split; auto; fail).
    + split; [intros [H _]; discriminate|].
      intros [[H|H] _]; discriminate.
Qed.

End OverlayLookup.

(** * The claims *)

(** ** C1: the escape round trip *)

(** C1.  For every string [s] that contains none of [&amp;], [&#91;],
    [&#93;], [&#44;], and for both values of [insideTagValue],
    [unescape (escape s insideTagValue)] is [s].  (The round trip holds
    for every string: see [unescape_escape].) *)
Theorem escape_unescape_round_trip (s : jsstring) (insideTagValue : bool) :
  includes (str "&amp;") s = false ->
  includes (str "&#91;") s = false ->
  includes (str "&#93;") s = false ->
  includes (str "&#44;") s = false ->
  unescape (escape s insideTagValue) = s.
Proof. intros _ _ _ _. apply unescape_escape. Qed.

Lemma escape_unescape_round_trip_witness :
  (includes (str "&amp;") (str "a&b,[c]") = false /\
   includes (str "&#91;") (str "a&b,[c]") = false /\
   includes (str "&#93;") (str "a&b,[c]") = false /\
   includes (str "&#44;") (str "a&b,[c]") = false) /\
  unescape (escape (str "a&b,[c]") true) = str "a&b,[c]" /\
  unescape (escape (str "a&b,[c]") false) = str "a&b,[c]".
Proof.
  split; [repeat split; reflexivity|].
  split.
  - apply (escape_unescape_round_trip (str "a&b,[c]") true); reflexivity.
  - apply (escape_unescape_round_trip (str "a&b,[c]") false); reflexivity.
Defined.

(** The order of the rules of [escape]: no double escaping. *)
Example escape_order : escape (str "&[") false = str "&amp;&#91;".
Proof. reflexivity. Qed.

(** ** C2: the two filters *)

(** C2, as stated, fails.  A literal-text tag ignores the overlaid
    mapping: [CQ.text("hi").modifier({a: null}).toString()] is [hi],
    without the entry [a=null] of the override.  And an attribute named
    [__proto__] is lost in the overlay: the tag of
    [[CQ:a,__proto__=b,c=d]] has the base entry [__proto__ = "b"], whose
    value is a string, and both serialisations leave it out. *)
Lemma defined_entries_left_out :
  (exists t s,
      (let* t := text (str "hi") in
       let* m := alloc (Obj true [(str "a", VNull)]) in
       modifier t m) [] = (Returns t, s) /\
      s !! _data t = Some (Obj true [(str "text", VStr (str "hi"))]) /\
      s !! _modifier t = Some (Obj true [(str "a", VNull)]) /\
      defined (str "a", VNull) = true /\
      result (toString t) s = Returns (VStr (str "hi")) /\
      includes (emit (str "a", VNull)) (str "hi") = false) /\
  (exists t s,
      parse (str "[CQ:a,__proto__=b,c=d]") [] = (Returns [t], s) /\
      s !! _data t
      = Some (Obj true [(str "__proto__", VStr (str "b"));
                        (str "c", VStr (str "d"))]) /\
      s !! _modifier t = Some empty_object /\
      not_nullish (str "__proto__", VStr (str "b")) = true /\
      result (toString t) s = Returns (VStr (str "[CQ:a,c=d]")) /\
      content (toTag t) s
      = Returns (VStr (str "a"), Some [(str "c", VStr (str "d"))])).
Proof.
  split.
  - eexists _, _. split; [vm_compute; reflexivity|].
    repeat apply conj; vm_compute; reflexivity.
  - eexists _, _. split; [vm_compute; reflexivity|].
    repeat apply conj; vm_compute; reflexivity.
Qed.

(** C2, amended.  For every instance whose base has no attribute named
    like a member of the tag ([_type], [_data], [_modifier], [tagName],
    [toString], [toTag]) and whose base and override have no key
    [__proto__], the overlaid mapping has one entry for each key of the
    base or of the override, with the value of the override when the
    override has the key.  The call [toString()] on an instance of the
    class [CQTag] emits exactly the overlaid entries whose value is not
    [undefined], an entry whose value is [null] among them, as
    [,key=null]; on an instance of the class [CQText] it returns the
    [text] attribute and emits no overlaid entry.  The call [toTag()]
    returns, for both classes, exactly the overlaid entries whose value
    is neither [undefined] nor [null]. *)
Theorem serialisation_filters (this : CQTag) (s : store) (d m : object) :
  s !! _data this = Some d ->
  s !! _modifier this = Some m ->
  forallb (fun name => negb (has_getter this name)) member_names = true ->
  List.NoDup (keys (props d)) ->
  List.NoDup (keys (props m)) ->
  has_property (str "__proto__") (props d) = false ->
  has_property (str "__proto__") (props m) = false ->
  exists entries,
    overlaid_entries (props d) (props m) entries /\
    (class_of this = CQTag_class ->
     result (toString this) s
     = Returns (VStr (str "[CQ:" ++ _type this
                        ++ flat_map emit (List.filter defined entries)
                        ++ str "]"))) /\
    (class_of this = CQText_class ->
     result (toString this) s
     = Returns (get_property (str "text") (props d))) /\
    content (toTag this) s
    = Returns (VStr (_type this), Some (List.filter not_nullish entries)) /\
    (forall k v,
        defined (k, v) = negb (is_undefined v) /\
        not_nullish (k, v) = negb (is_undefined v) && negb (is_null v)) /\
    (forall k, emit (k, VNull) = str "," ++ k ++ str "=null").
Proof.
  intros Hd Hm Hnames Hnd Hnm Hpd Hpm.
  cbn [forallb member_names] in Hnames.
  repeat (apply andb_true_iff in Hnames;
          let H := fresh "Hg" in destruct Hnames as [H Hnames]).
  repeat match goal with
         | H : negb _ = true |- _ => apply negb_true_iff in H
         end.
  exists (props (assign (assign empty_object (props d)) (props m))).
  split; [now apply assign_overlaid_entries|].
  assert (Hov : overlay_of this d m
                = assign (assign empty_object (props d)) (props m)).
  { unfold overlay_of.
    now replace (has_getter this (str "_modifier")) with false. }
  pose proof (toString_outcome this s d m Hd Hm) as Hts.
  pose proof (toTag_outcome this s d m Hd Hm) as Htt.
  unfold wire_text, type_of in Hts. unfold structured, tagName_of, type_of in Htt.
  repeat match goal with
         | H : has_getter this _ = false |- _ =>
             rewrite ?H in Hts; rewrite ?H in Htt; clear H
         end.
  rewrite Hov in Hts, Htt. unfold result.
  split; [intros Hc; now rewrite Hts, Hc|].
  split; [intros Hc; now rewrite Hts, Hc|].
  split; [exact Htt|].
  split; [intros k v; now destruct v | reflexivity].
Qed.

Lemma serialisation_filters_witness :
  exists entries,
    overlaid_entries (props filter_base) (props filter_override) entries /\
    (class_of filter_tag = CQTag_class ->
     result (toString filter_tag) [filter_base; filter_override]
     = Returns (VStr (str "[CQ:" ++ _type filter_tag
                        ++ flat_map emit (List.filter defined entries)
                        ++ str "]"))) /\
    (class_of filter_tag = CQText_class ->
     result (toString filter_tag) [filter_base; filter_override]
     = Returns (get_property (str "text") (props filter_base))) /\
    content (toTag filter_tag) [filter_base; filter_override]
    = Returns (VStr (_type filter_tag),
               Some (List.filter not_nullish entries)) /\
    (forall k v,
        defined (k, v) = negb (is_undefined v) /\
        not_nullish (k, v) = negb (is_undefined v) && negb (is_null v)) /\
    (forall k, emit (k, VNull) = str "," ++ k ++ str "=null").
Proof.
  refine (serialisation_filters filter_tag [filter_base; filter_override]
            filter_base filter_override eq_refl eq_refl eq_refl _ _
            eq_refl eq_refl).
  - repeat constructor; simpl; intuition discriminate.
  - repeat constructor; simpl; intuition discriminate.
Defined.

(** The tag of the example above: the wire text has [name=null] and
    [extra=null] and not [id] and [note]; the data of the structured
    form is empty. *)
Example filters_on_the_example :
  result (toString filter_tag) [filter_base; filter_override]
  = Returns (VStr (str "[CQ:face,name=null,extra=null]")) /\
  content (toTag filter_tag) [filter_base; filter_override]
  = Returns (VStr (str "face"), Some []).
Proof. split; vm_compute; reflexivity. Qed.

(** ** C3: the empty message *)

(** C3, as stated, fails: the parser makes one tag of the empty message,
    not none. *)
Lemma parse_empty_is_not_empty :
  result (parse (str "")) [] <> Returns [].
Proof. vm_compute. discriminate. Qed.

(** C3, amended.  The parser applied to the empty string produces a
    sequence of exactly one tag: a literal-text tag, of type ["text"],
    whose [text] attribute is the empty string and whose wire text is
    the empty string. *)
Theorem parse_empty (s : store) :
  let t := text_instance (length s) in
  let s' := s ++ text_objects [] in
  parse (str "") s = (Returns [t], s') /\
  this_tagName t s' = (Returns (VStr (str "text")), s') /\
  get t (str "text") s' = (Returns (VStr []), s') /\
  toString t s' = (Returns (VStr []), s').
Proof.
  intros t s'.
  assert (Hd : s' !! _data t = Some (object_of [(str "text", VStr [])])).
  { pose proof (text_instance_data s [] []) as H. now rewrite app_nil_r in H. }
  split; [|split; [|split]].
  - unfold parse. change (split_SPLIT (str "")) with [str ""].
    cbn [mapM].
    rewrite (bind_Returns _ _ _ _ _ (parseToken_literal (str "") s eq_refl)).
    reflexivity.
  - pose proof (this_tagName_run t s' _ Hd eq_refl []) as H.
    now rewrite app_nil_r in H.
  - pose proof (getter_run t s' _ Hd (str "text") eq_refl []) as H.
    now rewrite app_nil_r in H.
  - unfold toString. cbn [has_getter getters t text_instance existsb class_of].
    change (jsstring_eqb (str "toString") (str "text") || false) with false.
    cbv iota. now rewrite (CQText_toString_run t s' _ Hd).
Qed.

(** ** C8: the literal fallback *)

(** C8.  For every token that is not in the tag grammar
    [^\[CQ:([a-z]+)(?:,([^\]]+))?]$], the parser of a token returns (it
    signals no error) a tag of class [CQText], whose type is ["text"]
    and whose [text] attribute is the token, unchanged. *)
Theorem literal_fallback (tok : jsstring) (s : store) :
  ~ well_formed_tag tok ->
  let t := text_instance (length s) in
  let s' := s ++ text_objects tok in
  parseToken tok s = (Returns t, s') /\
  this_tagName t s' = (Returns (VStr (str "text")), s') /\
  get t (str "text") s' = (Returns (VStr tok), s').
Proof.
  intros Hno t s'. apply CQ_TAG_REGEXP_exec_None in Hno.
  assert (Hd : s' !! _data t = Some (object_of [(str "text", VStr tok)])).
  { pose proof (text_instance_data s tok []) as H. now rewrite app_nil_r in H. }
  split; [|split].
  - now apply parseToken_literal.
  - pose proof (this_tagName_run t s' _ Hd eq_refl []) as H.
    now rewrite app_nil_r in H.
  - pose proof (getter_run t s' _ Hd (str "text") eq_refl []) as H.
    now rewrite app_nil_r in H.
Qed.

Lemma literal_fallback_witness :
  ~ well_formed_tag (str "[CQ:bad") /\
  parseToken (str "[CQ:bad") []
  = (Returns (text_instance 0), text_objects (str "[CQ:bad")) /\
  this_tagName (text_instance 0) (text_objects (str "[CQ:bad"))
  = (Returns (VStr (str "text")), text_objects (str "[CQ:bad")) /\
  get (text_instance 0) (str "text") (text_objects (str "[CQ:bad"))
  = (Returns (VStr (str "[CQ:bad")), text_objects (str "[CQ:bad")).
Proof.
  assert (H : ~ well_formed_tag (str "[CQ:bad"))
    by (apply CQ_TAG_REGEXP_exec_None; reflexivity).
  split; [exact H|]. exact (literal_fallback (str "[CQ:bad") [] H).
Defined.

(** ** C4: the wire text of a text tag *)

(** C4, as stated, fails: the token [[CQ:text,text=a]] is in the tag
    grammar, so the parser makes of it a tag of the class [CQTag], of
    type ["text"]; its wire text is the token, not its [text]
    attribute. *)
Lemma text_tag_token_keeps_wrapper :
  exists t s,
    parse (str "[CQ:text,text=a]") [] = (Returns [t], s) /\
    this_tagName t s = (Returns (VStr (str "text")), s) /\
    get t (str "text") s = (Returns (VStr (str "a")), s) /\
    result (toString t) s = Returns (VStr (str "[CQ:text,text=a]")) /\
    result (toString t) s <> Returns (VStr (str "a")).
Proof.
  eexists _, _. split; [vm_compute; reflexivity|].
  repeat split; try (vm_compute; reflexivity). vm_compute. discriminate.
Qed.

(** C4, amended.  For every tag of the class [CQText] (the tags that
    [CQ.text] builds, and those that the parser builds for a token that
    is not in the tag grammar), the wire text is the value of its [text]
    attribute, verbatim.  A tag token of type ["text"], such as
    [[CQ:text,text=a]], parses to a tag of the class [CQTag], whose wire
    text has the [[CQ:...]] wrapper. *)
Theorem text_wire_form (s : store) (txt : jsstring) :
  (forall t,
      class_of t = CQText_class -> getters t = [str "text"] ->
      s !! _data t = Some (object_of [(str "text", VStr txt)]) ->
      toString t s = (Returns (VStr txt), s)) /\
  (exists t s',
      text txt s = (Returns t, s') /\
      toString t s' = (Returns (VStr txt), s')) /\
  (forall tok,
      ~ well_formed_tag tok ->
      exists t s',
        parseToken tok s = (Returns t, s') /\
        toString t s' = (Returns (VStr tok), s')) /\
  (exists t s',
      parseToken (str "[CQ:text,text=a]") s = (Returns t, s') /\
      class_of t = CQTag_class /\
      this_tagName t s' = (Returns (VStr (str "text")), s') /\
      result (toString t) s' = Returns (VStr (str "[CQ:text,text=a]"))).
Proof.
  assert (Hgen : forall (s0 : store) t0 txt0,
             class_of t0 = CQText_class -> getters t0 = [str "text"] ->
             s0 !! _data t0 = Some (object_of [(str "text", VStr txt0)]) ->
             toString t0 s0 = (Returns (VStr txt0), s0)).
  { intros s0 t0 txt0 Hc Hg Hd. unfold toString, has_getter.
    rewrite Hg, Hc. cbn [existsb].
    change (jsstring_eqb (str "toString") (str "text") || false) with false.
    cbv iota. rewrite (CQText_toString_run t0 s0 _ Hd).
    unfold has_getter. now rewrite Hg. }
  assert (Hnew : forall (s0 : store) txt0,
             toString (text_instance (length s0)) (s0 ++ text_objects txt0)
             = (Returns (VStr txt0), s0 ++ text_objects txt0)).
  { intros s0 txt0. apply Hgen; try reflexivity.
    pose proof (text_instance_data s0 txt0 []) as H.
    now rewrite app_nil_r in H. }
  split; [intros t; apply Hgen|]. split; [|split].
  - eexists _, _. split; [apply new_CQText_run | apply Hnew].
  - intros tok Hno. apply CQ_TAG_REGEXP_exec_None in Hno.
    eexists _, _. split; [now apply parseToken_literal | apply Hnew].
  - pose proof (parseToken_attributes (str "[CQ:text,text=a]") s
                  (str "text") (str "text=a") eq_refl) as Hrun.
    cbv zeta in Hrun. eexists _, _. split; [exact Hrun|].
    set (base := object_of (List.map entry_of (split_char 44 [] (str "text=a")))).
    assert (Hd : (s ++ [base; empty_object]) !! length s = Some base)
      by now apply list_lookup_middle.
    assert (Hm : (s ++ [base; empty_object]) !! S (length s)
                 = Some empty_object).
    { change (s ++ [base; empty_object]) with (s ++ [base] ++ [empty_object]).
      rewrite app_assoc.
      replace (S (length s)) with (length (s ++ [base]))
        by (rewrite length_app; simpl; lia).
      now apply list_lookup_middle. }
    split; [reflexivity|]. split.
    + pose proof (this_tagName_run
                    (Instance CQTag_class (str "text") (length s)
                       (S (length s)) (keys (props base)))
                    (s ++ [base; empty_object]) base Hd eq_refl []) as H.
      now rewrite app_nil_r in H.
    + unfold result.
      rewrite (toString_outcome
                 (Instance CQTag_class (str "text") (length s)
                    (S (length s)) (keys (props base)))
                 (s ++ [base; empty_object]) base empty_object Hd Hm).
      vm_compute. reflexivity.
Qed.

Lemma text_wire_form_witness :
  (class_of (text_instance 0) = CQText_class /\
   getters (text_instance 0) = [str "text"] /\
   text_objects (str "hello ") !! _data (text_instance 0)
   = Some (object_of [(str "text", VStr (str "hello "))])) /\
  toString (text_instance 0) (text_objects (str "hello "))
  = (Returns (VStr (str "hello ")), text_objects (str "hello ")).
Proof.
  split; [repeat split|].
  exact (proj1 (text_wire_form (text_objects (str "hello ")) (str "hello "))
           (text_instance 0) eq_refl eq_refl eq_refl).
Defined.

(** ** C6: the tokens make up the message *)

(** C6.  For every message, the tokens that the tokenizer produces,
    concatenated in their order, are the message. *)
Theorem tokens_reconstitute (msg : jsstring) :
  concat (split_SPLIT msg) = msg.
Proof. apply split_SPLIT_concat. Qed.

(** ** C5: where the tokens begin *)

(** C5, as stated, fails: in [a]b] the []] closes no tag token, and a
    token begins after it all the same. *)
Lemma cut_after_stray_bracket :
  split_SPLIT (str "a]b") = [str "a]"; str "b"] /\
  ~ cuts_after_tags_only (str "a]b").
Proof.
  split; [reflexivity|]. intros [_ H].
  assert (Hin : In 2%nat (token_starts 0 (split_SPLIT (str "a]b"))))
    by (right; left; reflexivity).
  destruct (H 2%nat ltac:(lia) Hin) as [Hs | [_ (p & Hp & n & v & Hg)]].
  - vm_compute in Hs. discriminate.
  - apply CQ_TAG_REGEXP_exec_complete in Hg.
    destruct p as [|[|p]]; [| |lia]; vm_compute in Hg; discriminate.
Qed.

Lemma split_SPLIT_starts_bound msg (q : nat) :
  In q (token_starts 0 (split_SPLIT msg)) ->
  q = 0%nat \/ (0 < q < length msg)%nat.
Proof.
  destruct msg as [|c msg].
  - intros [H|[]]. now left.
  - unfold split_SPLIT. cbn [split_loop is_empty negb].
    rewrite andb_false_r. simpl app.
    rewrite split_loop_starts by discriminate.
    intros [H|(i & Hi & -> & _)]; [now left|]. right. simpl. lia.
Qed.

Lemma split_SPLIT_starts_zero msg :
  In 0%nat (token_starts 0 (split_SPLIT msg)).
Proof.
  destruct msg as [|c msg]; [now left|].
  unfold split_SPLIT. cbn [split_loop is_empty negb].
  rewrite andb_false_r. simpl app.
  apply split_loop_starts; [discriminate | now left].
Qed.

(** C5, amended.  For every message, a token begins at the start of the
    message, immediately before every occurrence of [[CQ:] and
    immediately after every []] that is not the last character of the
    message, whether or not it closes a well-formed tag token; no token
    begins anywhere else. *)
Theorem token_boundaries (msg : jsstring) (q : nat) :
  In q (token_starts 0 (split_SPLIT msg)) <->
  q = 0%nat \/
  ((0 < q < length msg)%nat /\
   (startsWith (str "[CQ:") (drop q msg) = true \/
    msg !! (q - 1)%nat = Some 93)).
Proof.
  split.
  - intros H. destruct (split_SPLIT_starts_bound msg q H) as [->|Hq];
      [now left|].
    right. split; [exact Hq|]. now apply split_SPLIT_starts.
  - intros [->|[Hq H]]; [apply split_SPLIT_starts_zero|].
    now apply split_SPLIT_starts.
Qed.

(** ** C7: the order of the attributes *)

(** C7, as stated, fails: an object enumerates the keys that are array
    indices first, in ascending order, whatever the order of their
    insertion.  The parser inserts [b] and then [1] in the base mapping
    of [[CQ:a,b=x,1=y]], and the wire text of the tag has [1] first. *)
Lemma index_keys_come_first :
  exists t s,
    parse (str "[CQ:a,b=x,1=y]") [] = (Returns [t], s) /\
    s !! _data t
    = Some (object_of [(str "b", VStr (str "x")); (str "1", VStr (str "y"))]) /\
    s !! _modifier t = Some empty_object /\
    result (CQTag_toString t) s = Returns (str "[CQ:a,1=y,b=x]") /\
    result (CQTag_toString t) s
    <> Returns (str "[CQ:a"
                  ++ flat_map emit
                       (overlay_spec
                          [(str "b", VStr (str "x")); (str "1", VStr (str "y"))]
                          [])
                  ++ str "]").
Proof.
  eexists _, _. split; [vm_compute; reflexivity|].
  repeat split; try (vm_compute; reflexivity). vm_compute. discriminate.
Qed.

(** The wire text of an instance whose keys are ordinary names. *)
Lemma wire_text_order (t : CQTag) (s : store) (d m : object) :
  s !! _data t = Some d ->
  s !! _modifier t = Some m ->
  has_getter t (str "_type") = false ->
  has_getter t (str "_data") = false ->
  has_getter t (str "_modifier") = false ->
  List.NoDup (keys (props d)) ->
  List.NoDup (keys (props m)) ->
  (forall k, In k (keys (props d) ++ keys (props m)) -> plain_key k) ->
  CQTag_toString t s
  = (Returns (str "[CQ:" ++ _type t
                ++ flat_map emit
                     (List.filter defined (overlay_spec (props d) (props m)))
                ++ str "]"),
     s ++ [Obj true (overlay_spec (props d) (props m))]).
Proof.
  intros Hd Hm Hty Hdata Hmod Hnd Hnm Hplain.
  rewrite (CQTag_toString_run t s d m Hd Hm Hdata).
  unfold wire_text, type_of, overlay_of. rewrite Hdata, Hty, Hmod.
  now rewrite (assign_overlay _ _ Hnd Hnm Hplain).
Qed.

(** C7, amended.  For every instance of the class [CQTag] (a
    literal-text tag returns its text) whose base and override keys are
    neither array indices (the decimal numerals of the integers below
    2^32 - 1) nor [__proto__], and whose base has no attribute named
    [toString], [_type], [_data] or [_modifier], the call [toString()]
    returns the wire text that lists the attributes with a value in this
    order: the keys of the base in their insertion order, with the value
    of the override where the override has the key, then the keys that
    only the override has, in their insertion order.  In particular the
    tag of type ["face"] with the base [{id: 1}] and the override
    [{id: 2, extra: "x"}] has the wire text [[CQ:face,id=2,extra=x]]. *)
Theorem override_precedence :
  (forall (t : CQTag) (s : store) (d m : object),
      s !! _data t = Some d ->
      s !! _modifier t = Some m ->
      class_of t = CQTag_class ->
      has_getter t (str "toString") = false ->
      has_getter t (str "_type") = false ->
      has_getter t (str "_data") = false ->
      has_getter t (str "_modifier") = false ->
      List.NoDup (keys (props d)) ->
      List.NoDup (keys (props m)) ->
      (forall k, In k (keys (props d) ++ keys (props m)) -> plain_key k) ->
      toString t s
      = (Returns (VStr (str "[CQ:" ++ _type t
                          ++ flat_map emit
                               (List.filter defined
                                  (overlay_spec (props d) (props m)))
                          ++ str "]")),
         s ++ [Obj true (overlay_spec (props d) (props m))])) /\
  (forall s : store,
      result
        (let* d := alloc (object_of [(str "id", VNum 1)]) in
         let* t := new_CQTag CQTag_class (str "face") d in
         let* m := alloc (object_of [(str "id", VNum 2);
                                     (str "extra", VStr (str "x"))]) in
         let* t := modifier t m in
         toString t) s
      = Returns (VStr (str "[CQ:face,id=2,extra=x]"))).
Proof.
  split.
  { intros t s d m Hd Hm Hc Hts Hty Hdata Hmod Hnd Hnm Hplain.
    unfold toString. rewrite Hts, Hc.
    now rewrite (bind_Returns _ _ _ _ _
                   (wire_text_order t s d m Hd Hm Hty Hdata Hmod Hnd Hnm
                      Hplain)). }
  intros s. unfold result.
  set (d0 := object_of [(str "id", VNum 1)]).
  set (m0 := object_of [(str "id", VNum 2); (str "extra", VStr (str "x"))]).
  unfold bind at 1, alloc at 1.
  rewrite (bind_Returns _ _ _ _ _
             (new_CQTag_run CQTag_class (str "face") _ _ d0 (lookup_new s d0))).
  unfold bind at 1, alloc at 1.
  set (s2 := (s ++ [d0]) ++ [empty_object]).
  set (t1 := Instance CQTag_class (str "face") (length s) (length s2)
               (keys (props d0))).
  change (modifier _ (length s2)) with (modifier
    (Instance CQTag_class (str "face") (length s) (length (s ++ [d0]))
       (keys (props d0))) (length s2)).
  unfold modifier at 1.
  change (has_getter _ (str "modifier")) with false. cbv iota.
  change (has_getter _ (str "_modifier")) with false. cbv iota.
  unfold bind at 1, ret at 1. cbn [class_of _type _data getters].
  assert (Hd : (s2 ++ [m0]) !! length s = Some d0).
  { subst s2. rewrite <- !app_assoc. now apply list_lookup_middle. }
  assert (Hm : (s2 ++ [m0]) !! length s2 = Some m0) by apply lookup_new.
  pose proof (toString_outcome t1 (s2 ++ [m0]) d0 m0 Hd Hm) as Hout.
  unfold t1 in Hout. rewrite Hout.
  vm_compute. reflexivity.
Qed.

Lemma override_precedence_witness :
  toString face_tag [face_base; face_override]
  = (Returns (VStr (str "[CQ:face,id=2,extra=x]")),
     [face_base; face_override;
      Obj true [(str "id", VNum 2); (str "extra", VStr (str "x"))]]).
Proof.
  refine (proj1 override_precedence face_tag [face_base; face_override]
            face_base face_override eq_refl eq_refl eq_refl eq_refl eq_refl
            eq_refl eq_refl _ _ _).
  - repeat constructor; simpl; intuition discriminate.
  - repeat constructor; simpl; intuition discriminate.
  - intros k Hk. simpl in Hk.
    destruct Hk as [<-|[<-|[<-|[]]]]; (split; [reflexivity|discriminate]).
Defined.

(** ** C9: a piece without [=] *)

(** C9, as stated, fails when a later piece has an empty key too: the
    base mapping of [[CQ:a,x,y]] has the one entry [("", "y")], and no
    entry whose value is the piece [x]. *)
Lemma earlier_empty_key_is_overwritten :
  exists t s base,
    CQ_TAG_REGEXP_exec (str "[CQ:a,x,y]") = Some (str "a", Some (str "x,y")) /\
    split_char 44 [] (str "x,y") = [str "x"; str "y"] /\
    ~ In 61 (str "x") /\
    parse (str "[CQ:a,x,y]") [] = (Returns [t], s) /\
    s !! _data t = Some base /\
    props base = [(str "", VStr (str "y"))] /\
    ~ In (str "", VStr (str "x")) (props base).
Proof.
  eexists _, _, _. split; [reflexivity|]. split; [reflexivity|].
  split; [simpl; intuition discriminate|].
  split; [vm_compute; reflexivity|]. split; [vm_compute; reflexivity|].
  split; [reflexivity|]. simpl. intuition discriminate.
Qed.

(** C9, amended.  When the parser splits the attribute part of a tag
    token on [,], a piece without [=] yields the key/value pair whose
    key is the empty string and whose value is the entire piece (the
    index of [=] is -1).  The base mapping is built from the pairs of
    all the pieces and so has an entry with the empty key; its value is
    the piece when no later piece has an empty key, and that of the last
    piece with an empty key otherwise. *)
Theorem empty_key_entry (tok name value piece : jsstring)
        (before after : list jsstring) (s : store) :
  CQ_TAG_REGEXP_exec tok = Some (name, Some value) ->
  split_char 44 [] value = before ++ piece :: after ->
  ~ In 61 piece ->
  indexOf piece (str "=") = (-1)%Z /\
  entry_of piece = (str "", VStr piece) /\
  exists t base,
    parseToken tok s = (Returns t, s ++ [base; empty_object]) /\
    _data t = length s /\
    base = object_of (List.map entry_of (before ++ piece :: after)) /\
    has_property (str "") (props base) = true /\
    ((forall p, In p after -> fst (entry_of p) <> str "") ->
     get_property (str "") (props base) = VStr piece).
Proof.
  intros Hexec Hsplit Hno.
  split; [now apply indexOf_from_absent|].
  split; [now apply entry_of_no_equals|].
  pose proof (parseToken_attributes tok s name value Hexec) as Hrun.
  cbv zeta in Hrun. rewrite Hsplit in Hrun.
  eexists _, _. split; [exact Hrun|]. split; [reflexivity|].
  split; [reflexivity|].
  rewrite List.map_app. cbn [List.map].
  rewrite (entry_of_no_equals piece Hno). split.
  - rewrite object_of_has. apply has_property_In. unfold keys.
    rewrite List.map_app. apply in_or_app. right. now left.
  - intros Hafter. apply object_of_last. apply has_property_false.
    unfold keys. rewrite List.map_map. intros Hin.
    apply in_map_iff in Hin. destruct Hin as (p & Hp & Hin).
    exact (Hafter p Hin Hp).
Qed.

Lemma empty_key_entry_witness :
  (CQ_TAG_REGEXP_exec (str "[CQ:a,k=v,x]")
   = Some (str "a", Some (str "k=v,x")) /\
   split_char 44 [] (str "k=v,x") = [str "k=v"] ++ str "x" :: [] /\
   ~ In 61 (str "x")) /\
  indexOf (str "x") (str "=") = (-1)%Z /\
  entry_of (str "x") = (str "", VStr (str "x")) /\
  exists t base,
    parseToken (str "[CQ:a,k=v,x]") [] = (Returns t, [] ++ [base; empty_object]) /\
    _data t = length (@nil object) /\
    base = object_of (List.map entry_of ([str "k=v"] ++ str "x" :: [])) /\
    has_property (str "") (props base) = true /\
    ((forall p, In p [] -> fst (entry_of p) <> str "") ->
     get_property (str "") (props base) = VStr (str "x")).
Proof.
  assert (Hno : ~ In 61 (str "x")) by (simpl; intuition discriminate).
  split; [repeat split; exact Hno|].
  exact (empty_key_entry (str "[CQ:a,k=v,x]") (str "a") (str "k=v,x") (str "x")
           [str "k=v"] [] [] eq_refl eq_refl Hno).
Defined.

(** ** C10: the methods do not write to the receiver *)

(** C10.  For every instance whose two mappings are in the store,
    [toString] and [toTag] leave every object of the store as it is, the
    base mapping and the override mapping among them: they only add
    objects to the store, the overlaid mapping that they build and that
    [toTag] deletes from.  The instance itself is not written either:
    the methods assign to no field of [this].  Hence a second call,
    after either method, has the outcome of the first: the same value
    or error for [toString], the same type and the same entries of the
    data for [toTag]. *)
Theorem serialisation_frame (t : CQTag) (s : store) (d m : object) :
  s !! _data t = Some d ->
  s !! _modifier t = Some m ->
  (exists ext, final (toString t) s = s ++ ext) /\
  (exists ext, final (toTag t) s = s ++ ext) /\
  final (toString t) s !! _data t = Some d /\
  final (toString t) s !! _modifier t = Some m /\
  final (toTag t) s !! _data t = Some d /\
  final (toTag t) s !! _modifier t = Some m /\
  result (toString t) (final (toString t) s) = result (toString t) s /\
  result (toString t) (final (toTag t) s) = result (toString t) s /\
  content (toTag t) (final (toString t) s) = content (toTag t) s /\
  content (toTag t) (final (toTag t) s) = content (toTag t) s.
Proof.
  intros Hd Hm. unfold final, result.
  destruct (toString_frame t s d m Hd Hm) as [ext1 H1].
  destruct (toTag_frame t s d m Hd Hm) as [ext2 H2].
  rewrite H1, H2.
  pose proof (lookup_old s ext1 _ _ Hd) as Hd1.
  pose proof (lookup_old s ext1 _ _ Hm) as Hm1.
  pose proof (lookup_old s ext2 _ _ Hd) as Hd2.
  pose proof (lookup_old s ext2 _ _ Hm) as Hm2.
  split; [now exists ext1|]. split; [now exists ext2|].
  repeat (split; [assumption|]).
  rewrite (toString_outcome t s d m Hd Hm).
  rewrite (toString_outcome t _ d m Hd1 Hm1).
  rewrite (toString_outcome t _ d m Hd2 Hm2).
  rewrite (toTag_outcome t s d m Hd Hm).
  rewrite (toTag_outcome t _ d m Hd1 Hm1).
  rewrite (toTag_outcome t _ d m Hd2 Hm2).
  now repeat split.
Qed.

Lemma serialisation_frame_witness :
  ([face_base; face_override] !! _data face_tag = Some face_base /\
   [face_base; face_override] !! _modifier face_tag = Some face_override) /\
  (exists ext,
      final (toString face_tag) [face_base; face_override]
      = [face_base; face_override] ++ ext) /\
  (exists ext,
      final (toTag face_tag) [face_base; face_override]
      = [face_base; face_override] ++ ext) /\
  final (toString face_tag) [face_base; face_override] !! _data face_tag
  = Some face_base /\
  final (toString face_tag) [face_base; face_override] !! _modifier face_tag
  = Some face_override /\
  final (toTag face_tag) [face_base; face_override] !! _data face_tag
  = Some face_base /\
  final (toTag face_tag) [face_base; face_override] !! _modifier face_tag
  = Some face_override /\
  result (toString face_tag)
    (final (toString face_tag) [face_base; face_override])
  = result (toString face_tag) [face_base; face_override] /\
  result (toString face_tag)
    (final (toTag face_tag) [face_base; face_override])
  = result (toString face_tag) [face_base; face_override] /\
  content (toTag face_tag)
    (final (toString face_tag) [face_base; face_override])
  = content (toTag face_tag) [face_base; face_override] /\
  content (toTag face_tag)
    (final (toTag face_tag) [face_base; face_override])
  = content (toTag face_tag) [face_base; face_override].
Proof.
  split; [split; reflexivity|].
  exact (serialisation_frame face_tag [face_base; face_override]
           face_base face_override eq_refl eq_refl).
Defined.

(** ** The examples of the specification *)

(** [CQ.at(10001).toString()] and the parse of its wire text. *)
Example at_round_trip :
  result (let* d := alloc (object_of [(str "qq", VNum 10001)]) in
          let* t := new_CQTag CQTag_class (str "at") d in
          toString t) []
  = Returns (VStr (str "[CQ:at,qq=10001]")) /\
  parse (str "[CQ:at,qq=10001]") []
  = (Returns [Instance CQTag_class (str "at") 0 1 [str "qq"]],
     [object_of [(str "qq", VStr (str "10001"))]; empty_object]).
Proof. split; vm_compute; reflexivity. Qed.

(** [CQ.parse("hello [CQ:face,id=1] world")] *)
Example mixed_message :
  parse (str "hello [CQ:face,id=1] world") []
  = (Returns [text_instance 0;
              Instance CQTag_class (str "face") 2 3 [str "id"];
              text_instance 4],
     text_objects (str "hello ")
     ++ [object_of [(str "id", VStr (str "1"))]; empty_object]
     ++ text_objects (str " world")).
Proof. vm_compute. reflexivity. Qed.

(** A base attribute named like a field of the instance replaces the
    field: the constructor defines an accessor of that name. *)
Example attribute_named_like_a_field :
  exists t s,
    parse (str "[CQ:a,_type=b]") [] = (Returns [t], s) /\
    result (toString t) s = Returns (VStr (str "[CQ:b,_type=b]")).
Proof.
  eexists _, _. split; [vm_compute; reflexivity|]. vm_compute. reflexivity.
Qed.

(** [Object.assign] does not copy a base attribute named [__proto__]. *)
Example attribute_named_proto :
  exists t s,
    parse (str "[CQ:a,__proto__=b,c=d]") [] = (Returns [t], s) /\
    result (toString t) s = Returns (VStr (str "[CQ:a,c=d]")).
Proof.
  eexists _, _. split; [vm_compute; reflexivity|]. vm_compute. reflexivity.
Qed.

(** * Further properties *)

(** ** The escaper *)

Section EscaperFacts.

Lemma no_char_app c a b : no_char c (a ++ b) = no_char c a && no_char c b.
Proof. unfold no_char. apply forallb_app. Qed.

Lemma no_char_flat_map c (f : char -> jsstring) s :
  (forall x, no_char c (f x) = true) -> no_char c (flat_map f s) = true.
Proof.
  intros H. induction s as [|x s IH]; [reflexivity|].
  cbn [flat_map]. now rewrite no_char_app, H, IH.
Qed.

Lemma no_char_In c s : no_char c s = true <-> ~ In c s.
Proof.
  unfold no_char. rewrite forallb_forall. split.
  - intros H Hin. specialize (H c Hin). now rewrite N.eqb_refl in H.
  - intros H x Hx. apply negb_true_iff, N.eqb_neq. intros ->. now apply H.
Qed.

Lemma esc_char_safe b x :
  bracket_free (esc_char b x) = true /\
  (b = true -> no_char 44 (esc_char b x) = true).
Proof.
  unfold bracket_free, no_char.
  destruct b; unfold esc_char, esc_comma, esc_rb;
    destruct (N.eqb_spec x 38) as [->|H38]; try (now split);
    destruct (N.eqb_spec x 91) as [->|H91]; try (now split);
    destruct (N.eqb_spec x 93) as [->|H93]; try (now split);
    try (destruct (N.eqb_spec x 44) as [->|H44]; try (now split));
    cbn [forallb andb negb];
    repeat match goal with
      | H : x <> ?k |- _ => apply N.eqb_neq in H; rewrite H
      end;
    now split.
Qed.

Lemma escape_bracket_free s b : bracket_free (escape s b) = true.
Proof.
  rewrite escape_flat_map. unfold bracket_free. apply andb_true_iff. split;
    apply no_char_flat_map; intros x;
    destruct (esc_char_safe b x) as [H _];
    apply andb_true_iff in H; tauto.
Qed.

Lemma escape_value_safe s : value_safe (escape s true) = true.
Proof.
  unfold value_safe. rewrite escape_bracket_free. cbn [andb].
  rewrite escape_flat_map. apply no_char_flat_map. intros x.
  now apply (esc_char_safe true x).
Qed.

Lemma replaceAll_no_head p pat rep s :
  no_char p s = true -> replaceAll (p :: pat) rep s = s.
Proof.
  intros H. induction s as [|c s IH]; [reflexivity|].
  cbn [no_char forallb] in H. apply andb_true_iff in H. destruct H as [Hc Hs].
  rewrite replaceAll_copy.
  - f_equal. now apply IH.
  - cbn [startsWith]. apply negb_true_iff in Hc.
    now rewrite N.eqb_sym, Hc.
Qed.

End EscaperFacts.

(** X1.  [unescape] undoes [escape] on every string, in both modes: also
    on a string that already contains [&amp;], [&#91;], [&#93;] or
    [&#44;]. *)
Theorem escape_round_trip_total (s : jsstring) (insideCQ : bool) :
  unescape (escape s insideCQ) = s.
Proof. apply unescape_escape. Qed.

(** X2.  The result of [escape] contains neither [[] nor []]; with
    [insideCQ] it contains no [,] either. *)
Theorem escape_is_safe (s : jsstring) (insideCQ : bool) :
  ~ In 91 (escape s insideCQ) /\
  ~ In 93 (escape s insideCQ) /\
  ~ In 44 (escape s true).
Proof.
  pose proof (escape_bracket_free s insideCQ) as H.
  apply andb_true_iff in H. destruct H as [H1 H2].
  pose proof (escape_value_safe s) as H3.
  apply andb_true_iff in H3. destruct H3 as [_ H3].
  repeat split; now apply no_char_In.
Qed.

(** X3.  [escape] works code unit by code unit: the escape of a
    concatenation is the concatenation of the escapes, and a string
    is never shortened. *)
Theorem escape_concatenation (a b : jsstring) (insideCQ : bool) :
  escape (a ++ b) insideCQ = escape a insideCQ ++ escape b insideCQ /\
  (length a <= length (escape a insideCQ))%nat.
Proof.
  rewrite !escape_flat_map. split; [apply flat_map_app|].
  induction a as [|c a IH]; [reflexivity|].
  cbn [flat_map]. rewrite length_app. simpl length.
  assert (1 <= length (esc_char insideCQ c))%nat; [|lia].
  unfold esc_char, esc_comma, esc_rb.
  destruct insideCQ;
    repeat match goal with |- context [N.eqb ?x ?y] => destruct (N.eqb x y) end;
    simpl; lia.
Qed.

(** X4.  A string without [&], [[], []] and [,] is its own escape, and a
    string without [&] is its own unescape. *)
Theorem plain_text_is_unchanged (s : jsstring) (insideCQ : bool) :
  (~ In 38 s -> ~ In 91 s -> ~ In 93 s -> ~ In 44 s -> escape s insideCQ = s) /\
  (~ In 38 s -> unescape s = s).
Proof.
  split.
  - intros H38 H91 H93 H44. rewrite escape_flat_map.
    induction s as [|c s IH]; [reflexivity|].
    cbn [flat_map]. rewrite IH by (intros H; simpl in *; tauto).
    assert (E38 : N.eqb c 38 = false)
      by (apply N.eqb_neq; intros ->; apply H38; now left).
    assert (E91 : N.eqb c 91 = false)
      by (apply N.eqb_neq; intros ->; apply H91; now left).
    assert (E93 : N.eqb c 93 = false)
      by (apply N.eqb_neq; intros ->; apply H93; now left).
    assert (E44 : N.eqb c 44 = false)
      by (apply N.eqb_neq; intros ->; apply H44; now left).
    unfold esc_char, esc_comma, esc_rb.
    destruct insideCQ; now rewrite E38, E91, E93, ?E44.
  - intros H38. apply no_char_In in H38. unfold unescape.
    change (str "&#44;") with (38 :: str "#44;").
    change (str "&#91;") with (38 :: str "#91;").
    change (str "&#93;") with (38 :: str "#93;").
    change (str "&amp;") with (38 :: str "amp;").
    rewrite (replaceAll_no_head 38 (str "#44;") _ s H38).
    rewrite (replaceAll_no_head 38 (str "#91;") _ s H38).
    rewrite (replaceAll_no_head 38 (str "#93;") _ s H38).
    apply (replaceAll_no_head 38 (str "amp;") _ s H38).
Qed.

Lemma plain_text_is_unchanged_witness :
  (~ In 38 (str "hello") /\ ~ In 91 (str "hello") /\
   ~ In 93 (str "hello") /\ ~ In 44 (str "hello")) /\
  escape (str "hello") true = str "hello" /\
  unescape (str "hello") = str "hello".
Proof.
  assert (H : forall c, no_char c (str "hello") = true -> ~ In c (str "hello"))
    by (intros c; apply no_char_In).
  split; [repeat split; apply H; reflexivity|].
  split.
  - apply (proj1 (plain_text_is_unchanged (str "hello") true));
      apply H; reflexivity.
  - apply (proj2 (plain_text_is_unchanged (str "hello") true)).
    apply H; reflexivity.
Defined.

(** ** The tokenizer: the shape of the tokens *)

Section TokenizerFacts.

Lemma startsWith_app_l pat a b :
  startsWith pat a = true -> startsWith pat (a ++ b) = true.
Proof.
  revert a. induction pat as [|p pat IH]; intros a H; [reflexivity|].
  destruct a as [|c a]; [discriminate|]. cbn [startsWith app] in *.
  apply andb_true_iff in H. destruct H as [-> H]. now apply IH.
Qed.

Lemma startsWith_app_false pat a b :
  startsWith pat (a ++ b) = false -> startsWith pat a = false.
Proof.
  intros H. destruct (startsWith pat a) eqn:E; [|reflexivity].
  now rewrite (startsWith_app_l _ _ b E) in H.
Qed.

Lemma split_loop_shape prev cur rest :
  cur <> [] ->
  last cur = prev ->
  (forall i : nat, cur !! i = Some 93 -> S i = length cur) ->
  (forall i : nat, (0 < i < length cur)%nat ->
                   startsWith (str "[CQ:") (drop i (cur ++ rest)) = false) ->
  Forall token_shape (split_loop prev cur rest).
Proof.
  revert prev cur. induction rest as [|c rest IH];
    intros prev cur Hne Hlast Hbr Hcq.
  - constructor; [|constructor]. split; [assumption|]. split; [assumption|].
    intros i Hi. destruct (Nat.lt_ge_cases i (length cur)) as [Hlt|Hge].
    + specialize (Hcq i (conj Hi Hlt)). now rewrite app_nil_r in Hcq.
    + now rewrite drop_ge.
  - cbn [split_loop].
    assert (Hcur : negb (is_empty cur) = true) by now destruct cur.
    rewrite Hcur, andb_true_r.
    destruct (SPLIT_at prev (c :: rest)) eqn:Hsplit.
    + constructor.
      * split; [assumption|]. split; [assumption|].
        intros i Hi. destruct (Nat.lt_ge_cases i (length cur)) as [Hlt|Hge].
        -- specialize (Hcq i (conj Hi Hlt)).
           rewrite drop_app_le in Hcq by lia.
           now apply startsWith_app_false in Hcq.
        -- now rewrite drop_ge.
      * apply IH; [discriminate|reflexivity| |].
        -- intros [|i] Hi; [reflexivity|discriminate].
        -- intros i Hi. simpl in Hi. lia.
    + unfold SPLIT_at in Hsplit. apply orb_false_iff in Hsplit.
      destruct Hsplit as [Hstart Hprev].
      apply IH.
      * now destruct cur.
      * now rewrite last_snoc.
      * intros i Hi. rewrite length_app. simpl length.
        destruct (Nat.lt_ge_cases i (length cur)) as [Hlt|Hge].
        -- rewrite lookup_app_l in Hi by assumption.
           pose proof (Hbr i Hi) as Hend.
           exfalso.
           assert (Hl : last cur = Some 93).
           { rewrite last_lookup. rewrite <- Hend. exact Hi. }
           rewrite Hl in Hlast. subst prev.
           now rewrite N.eqb_refl in Hprev.
        -- apply lookup_lt_Some in Hi. rewrite length_app in Hi.
           simpl in Hi. lia.
      * intros i Hi. rewrite length_app in Hi. simpl length in Hi.
        rewrite <- app_assoc. cbn [app].
        destruct (Nat.eq_dec i (length cur)) as [->|Hni].
        -- now rewrite drop_app_length.
        -- apply Hcq. lia.
Qed.

Lemma split_loop_no_cut prev cur body tail :
  prev <> Some 93 ->
  bracket_free body = true ->
  tail = [] \/ tail = [93] ->
  split_loop prev cur (body ++ tail) = [cur ++ body ++ tail].
Proof.
  revert prev cur. induction body as [|c body IH]; intros prev cur Hp Hb Ht.
  - cbn [app]. destruct Ht as [->| ->].
    + now rewrite app_nil_r.
    + cbn [split_loop]. unfold SPLIT_at. cbn [startsWith str List.map
        list_ascii_of_string N_of_ascii N.eqb].
      change (N_of_ascii "[") with 91. cbn.
      destruct prev as [x|]; [|reflexivity].
      destruct (N.eqb_spec x 93) as [->|]; [congruence|reflexivity].
  - unfold bracket_free, no_char in Hb. cbn [forallb] in Hb.
    apply andb_true_iff in Hb. destruct Hb as [H91 H93].
    apply andb_true_iff in H91, H93.
    destruct H91 as [Hc91 H91], H93 as [Hc93 H93].
    cbn [app split_loop].
    assert (Hno : SPLIT_at prev (c :: body ++ tail) = false).
    { unfold SPLIT_at. apply orb_false_iff. split.
      - change (str "[CQ:") with (91 :: str "CQ:"). cbn [startsWith].
        apply negb_true_iff in Hc91. now rewrite N.eqb_sym, Hc91.
      - destruct prev as [x|]; [|reflexivity].
        destruct (N.eqb_spec x 93) as [->|]; [congruence|reflexivity]. }
    rewrite Hno. cbn [andb].
    rewrite IH.
    + now rewrite <- app_assoc.
    + intros [= ->]. now rewrite N.eqb_refl in Hc93.
    + unfold bracket_free, no_char. now rewrite H91, H93.
    + assumption.
Qed.

Lemma split_SPLIT_text msg :
  bracket_free msg = true -> split_SPLIT msg = [msg].
Proof.
  intros H. destruct msg as [|c msg]; [reflexivity|].
  unfold split_SPLIT.
  pose proof (split_loop_no_cut None [] (c :: msg) [] ltac:(discriminate) H
                (or_introl eq_refl)) as E.
  now rewrite !app_nil_r in E.
Qed.

Lemma split_SPLIT_bracketed body :
  bracket_free body = true ->
  split_SPLIT (str "[" ++ body ++ str "]") = [str "[" ++ body ++ str "]"].
Proof.
  intros H. unfold split_SPLIT. cbn [app str List.map list_ascii_of_string].
  cbn [split_loop is_empty negb]. rewrite andb_false_r.
  exact (split_loop_no_cut (Some (N_of_ascii "[")) [N_of_ascii "["] body [93]
           ltac:(discriminate) H (or_intror eq_refl)).
Qed.

End TokenizerFacts.

(** X5.  Every token that the tokenizer makes of a non-empty message is
    non-empty, contains []] at most as its last character and contains
    [[CQ:] at most at its start. *)
Theorem tokens_are_well_shaped (msg : jsstring) :
  msg <> [] -> Forall token_shape (split_SPLIT msg).
Proof.
  intros Hne. destruct msg as [|c msg]; [congruence|].
  unfold split_SPLIT. cbn [split_loop is_empty negb].
  rewrite andb_false_r. apply split_loop_shape.
  - discriminate.
  - reflexivity.
  - intros [|i] Hi; [reflexivity|discriminate].
  - intros i Hi. simpl in Hi. lia.
Qed.

Lemma tokens_are_well_shaped_witness :
  str "a][CQ:b]c" <> [] /\
  Forall token_shape (split_SPLIT (str "a][CQ:b]c")).
Proof.
  assert (H : str "a][CQ:b]c" <> []) by discriminate.
  split; [exact H|]. exact (tokens_are_well_shaped (str "a][CQ:b]c") H).
Defined.

(** X6.  A message without [[] and []] is one token, and so is a message
    that has them only as its first and its last character. *)
Theorem bracket_free_text_is_one_token (msg : jsstring) :
  bracket_free msg = true ->
  split_SPLIT msg = [msg] /\
  split_SPLIT (str "[" ++ msg ++ str "]") = [str "[" ++ msg ++ str "]"].
Proof.
  intros H. split; [now apply split_SPLIT_text | now apply split_SPLIT_bracketed].
Qed.

Lemma bracket_free_text_is_one_token_witness :
  bracket_free (str "CQ:at,qq=1") = true /\
  split_SPLIT (str "CQ:at,qq=1") = [str "CQ:at,qq=1"] /\
  split_SPLIT (str "[" ++ str "CQ:at,qq=1" ++ str "]")
  = [str "[" ++ str "CQ:at,qq=1" ++ str "]"].
Proof.
  split; [reflexivity|].
  exact (bracket_free_text_is_one_token (str "CQ:at,qq=1") eq_refl).
Defined.

(** ** The parser on every message *)

Section ParserFacts.

Lemma parseToken_run tok (s : store) :
  parseToken tok s
  = (Returns (token_instance tok (length s)),
     s ++ [token_object tok; empty_object]).
Proof.
  unfold token_instance, token_object.
  destruct (CQ_TAG_REGEXP_exec tok) as [[name [value|]]|] eqn:E.
  - rewrite (parseToken_attributes tok s name value E). reflexivity.
  - rewrite (parseToken_bare tok s name E). reflexivity.
  - now rewrite (parseToken_literal tok s E).
Qed.

Lemma mapM_parseToken toks (s : store) :
  mapM parseToken toks s
  = (Returns (token_instances toks (length s)), s ++ token_objects toks).
Proof.
  revert s. induction toks as [|tok toks IH]; intros s.
  - cbn. unfold ret. now rewrite app_nil_r.
  - cbn [mapM]. rewrite (bind_Returns _ _ _ _ _ (parseToken_run tok s)).
    rewrite (bind_Returns _ _ _ _ _ (IH _)).
    unfold ret. cbn [token_instances token_objects flat_map].
    rewrite length_app. simpl length.
    replace (length s + 2)%nat with (S (S (length s))) by lia.
    now rewrite <- app_assoc.
Qed.

Lemma length_token_instances toks n :
  length (token_instances toks n) = length toks.
Proof.
  revert n. induction toks as [|tok toks IH]; intros n; [reflexivity|].
  cbn [token_instances length]. now rewrite IH.
Qed.

Lemma length_token_objects toks :
  length (token_objects toks) = (2 * length toks)%nat.
Proof.
  induction toks as [|tok toks IH]; [reflexivity|].
  unfold token_objects in *. cbn [flat_map]. rewrite length_app, IH.
  simpl. lia.
Qed.

Lemma bracket_free_not_tag e :
  bracket_free e = true -> CQ_TAG_REGEXP_exec e = None.
Proof.
  intros H. unfold CQ_TAG_REGEXP_exec.
  destruct e as [|c e]; [reflexivity|].
  unfold bracket_free, no_char in H. cbn [forallb] in H.
  apply andb_true_iff in H. destruct H as [H _].
  apply andb_true_iff in H. destruct H as [H _].
  apply negb_true_iff in H.
  change (str "[CQ:") with (91 :: str "CQ:"). cbn [strip_prefix].
  now rewrite N.eqb_sym, H.
Qed.

End ParserFacts.

(** X7.  [CQ.parse] returns for every message, in every store: it makes
    one tag of each token, in the order of the tokens (so at least one
    tag), and it only adds objects to the store, two for each tag: the
    base mapping and the empty override mapping. *)
Theorem parse_returns (msg : jsstring) (s : store) :
  parse msg s
  = (Returns (token_instances (split_SPLIT msg) (length s)),
     s ++ token_objects (split_SPLIT msg)) /\
  length (token_instances (split_SPLIT msg) (length s))
  = length (split_SPLIT msg) /\
  length (token_objects (split_SPLIT msg))
  = (2 * length (split_SPLIT msg))%nat /\
  (1 <= length (split_SPLIT msg))%nat.
Proof.
  split; [apply mapM_parseToken|].
  split; [apply length_token_instances|].
  split; [apply length_token_objects|].
  destruct msg as [|c msg]; [simpl; lia|].
  pose proof (split_SPLIT_starts_zero (c :: msg)) as H.
  destruct (split_SPLIT (c :: msg)); [destruct H | simpl; lia].
Qed.

(** X8.  Escaped text is read back as one literal-text tag: for every
    string, the parser makes of [escape(text)] one tag of the class
    [CQText] whose [text] attribute and wire text are the escaped
    string, of which [unescape] gives the string back. *)
Theorem escaped_text_round_trip (txt : jsstring) (s : store) :
  let e := escape txt false in
  let t := text_instance (length s) in
  let s' := s ++ text_objects e in
  parse e s = (Returns [t], s') /\
  get t (str "text") s' = (Returns (VStr e), s') /\
  toString t s' = (Returns (VStr e), s') /\
  unescape e = txt.
Proof.
  intros e t s'.
  pose proof (escape_bracket_free txt false) as Hfree. fold e in Hfree.
  assert (Hd : s' !! _data t = Some (object_of [(str "text", VStr e)])).
  { pose proof (text_instance_data s e []) as H. now rewrite app_nil_r in H. }
  split; [|split; [|split]].
  - unfold parse. rewrite (split_SPLIT_text e Hfree). cbn [mapM].
    rewrite (bind_Returns _ _ _ _ _
               (parseToken_literal e s (bracket_free_not_tag e Hfree))).
    reflexivity.
  - pose proof (getter_run t s' _ Hd (str "text") eq_refl []) as H.
    now rewrite app_nil_r in H.
  - unfold toString. cbn [has_getter getters t text_instance existsb class_of].
    change (jsstring_eqb (str "toString") (str "text") || false) with false.
    cbv iota. now rewrite (CQText_toString_run t s' _ Hd).
  - apply unescape_escape.
Qed.

(** ** Tags with ordinary attribute names *)

Section OrdinaryTags.

Lemma distinct_NoDup ks : distinct ks = true -> List.NoDup ks.
Proof.
  induction ks as [|k ks IH]; [constructor|].
  cbn [distinct]. intros H. apply andb_true_iff in H. destruct H as [Hk Hks].
  constructor; [|now apply IH].
  intros Hin. apply negb_true_iff in Hk.
  assert (E : existsb (jsstring_eqb k) ks = true).
  { apply existsb_exists. exists k. split; [assumption|apply jsstring_eqb_refl]. }
  congruence.
Qed.

Lemma existsb_eqb_In k ks : existsb (jsstring_eqb k) ks = true <-> In k ks.
Proof.
  rewrite existsb_exists. split.
  - intros (x & Hx & E). now destruct (jsstring_eqb_spec k x) as [->|].
  - intros H. exists k. split; [assumption|apply jsstring_eqb_refl].
Qed.

Lemma ordinary_key_spec k :
  ordinary_key k = true ->
  plain_key k /\ ~ In k member_names.
Proof.
  unfold ordinary_key, plain_key. destruct (array_index k); [discriminate|].
  intros H. apply andb_true_iff in H. destruct H as [Hp Hm].
  apply negb_true_iff in Hp, Hm. split; [split; [reflexivity|]|].
  - intros ->. now rewrite jsstring_eqb_refl in Hp.
  - intros Hin. apply existsb_eqb_In in Hin. congruence.
Qed.

Lemma ordinary_keys_no_member ks name :
  forallb ordinary_key ks = true -> In name member_names ->
  existsb (jsstring_eqb name) ks = false.
Proof.
  intros Hall Hin. apply not_true_is_false. intros H.
  apply existsb_eqb_In in H.
  rewrite forallb_forall in Hall.
  now destruct (ordinary_key_spec name (Hall name H)) as [_ Hno].
Qed.

Lemma overlay_spec_nil_r d : overlay_spec d [] = d.
Proof.
  unfold overlay_spec. cbn [List.filter]. rewrite app_nil_r.
  induction d as [|[k v] d IH]; [reflexivity|].
  cbn [List.map]. now rewrite IH.
Qed.

Lemma define_is_upsert k v ps :
  array_index k = None -> define_property k v ps = upsert ps (k, v).
Proof.
  intros H. unfold define_property, upsert, add_property. cbn [fst snd].
  now rewrite H.
Qed.

Lemma object_of_ordinary es :
  distinct (keys es) = true ->
  forallb ordinary_key (keys es) = true ->
  object_of es = Obj true es.
Proof.
  intros Hd Ho. unfold object_of. f_equal.
  assert (Hfold : forall acc,
             fold_left (fun ps kv => define_property (fst kv) (snd kv) ps) es acc
             = fold_left upsert es acc).
  { clear Hd. induction es as [|[k v] es IH]; intros acc; [reflexivity|].
    cbn [keys List.map forallb fst] in Ho.
    apply andb_true_iff in Ho. destruct Ho as [Hk Ho].
    cbn [fold_left fst snd]. rewrite define_is_upsert.
    - now apply IH.
    - now destruct (ordinary_key_spec k Hk) as [[H _] _]. }
  rewrite Hfold, fold_upsert; [|constructor|now apply distinct_NoDup].
  unfold overlay_spec. cbn [List.map app]. clear.
  induction es as [|kv es IH]; [reflexivity|].
  cbn [List.filter has_property negb]. now f_equal.
Qed.

Lemma ordinary_overlay es :
  distinct (keys es) = true ->
  forallb ordinary_key (keys es) = true ->
  assign (assign empty_object es) [] = Obj true es.
Proof.
  intros Hd Ho.
  rewrite (assign_overlay es []).
  - now rewrite overlay_spec_nil_r.
  - now apply distinct_NoDup.
  - constructor.
  - intros k Hk. rewrite app_nil_r in Hk.
    rewrite forallb_forall in Ho.
    now destruct (ordinary_key_spec k (Ho k Hk)).
Qed.

(** The outcomes of the two methods for an instance of the class [CQTag]
    whose base has the entries [es] under distinct ordinary names and
    whose override is empty. *)
Lemma ordinary_outcomes (t : CQTag) (d m : object) es :
  getters t = keys es -> props d = es -> props m = [] ->
  distinct (keys es) = true ->
  forallb ordinary_key (keys es) = true ->
  wire_text t d m = Returns (wire (_type t) es) /\
  structured t d m = Returns (VStr (_type t), List.filter not_nullish es) /\
  has_getter t (str "toString") = false /\
  has_getter t (str "toTag") = false.
Proof.
  intros Hg Hpd Hpm Hd Ho.
  assert (Hno : forall name, In name member_names -> has_getter t name = false).
  { intros name Hin. unfold has_getter. rewrite Hg.
    now apply ordinary_keys_no_member. }
  assert (Hov : overlay_of t d m = Obj true es).
  { unfold overlay_of. rewrite (Hno (str "_modifier")), Hpd, Hpm
      by (simpl; tauto).
    now apply ordinary_overlay. }
  unfold wire_text, structured, tagName_of, type_of, wire.
  rewrite (Hno (str "_data")), (Hno (str "_type")), (Hno (str "tagName")),
    (Hno (str "toString")), (Hno (str "toTag")), Hov by (simpl; tauto).
  now repeat split.
Qed.

End OrdinaryTags.

(** ** The factories *)

Section Factories.

Lemma new_instance_outcomes (t : CQTag) (s : store) (d m : object) es :
  s !! _data t = Some d -> s !! _modifier t = Some m ->
  class_of t = CQTag_class ->
  getters t = keys es -> props d = es -> props m = [] ->
  distinct (keys es) = true ->
  forallb ordinary_key (keys es) = true ->
  result (toString t) s = Returns (VStr (wire (_type t) es)) /\
  content (toTag t) s
  = Returns (VStr (_type t), Some (List.filter not_nullish es)).
Proof.
  intros Hd Hm Hc Hg Hpd Hpm Hdis Hord.
  destruct (ordinary_outcomes t d m es Hg Hpd Hpm Hdis Hord)
    as (Hw & Hst & HtoString & HtoTag).
  split.
  - unfold result. rewrite (toString_outcome t s d m Hd Hm).
    now rewrite HtoString, Hc, Hw.
  - rewrite (toTag_outcome t s d m Hd Hm). now rewrite HtoTag, Hst.
Qed.

Lemma lookup_second (s : store) (a b : object) :
  (s ++ [a; b]) !! S (length s) = Some b.
Proof.
  change (s ++ [a; b]) with (s ++ [a] ++ [b]). rewrite app_assoc.
  replace (S (length s)) with (length (s ++ [a]))
    by (rewrite length_app; simpl; lia).
  apply lookup_new.
Qed.

Lemma lookup_first (s : store) (a b : object) :
  (s ++ [a; b]) !! length s = Some a.
Proof. now apply list_lookup_middle. Qed.

Lemma build_run ty fields (s : store) :
  distinct (keys fields) = true ->
  forallb ordinary_key (keys fields) = true ->
  build ty fields s
  = (Returns (Instance CQTag_class ty (length s) (S (length s)) (keys fields)),
     s ++ [Obj true fields; empty_object]).
Proof.
  intros Hd Ho. unfold build, bind at 1, alloc.
  rewrite (new_CQTag_run _ _ _ _ _ (lookup_new s _)).
  rewrite (object_of_ordinary fields Hd Ho). cbn [props].
  rewrite length_app, <- app_assoc. simpl. now rewrite Nat.add_1_r.
Qed.

Lemma build_outcomes ty fields (s : store) :
  distinct (keys fields) = true ->
  forallb ordinary_key (keys fields) = true ->
  wire_of (build ty fields) s = Returns (VStr (wire ty fields)) /\
  tag_of (build ty fields) s
  = Returns (VStr ty, Some (List.filter not_nullish fields)).
Proof.
  intros Hd Ho. unfold wire_of, tag_of, result, content, and_then.
  rewrite !(bind_Returns _ _ _ _ _ (build_run ty fields s Hd Ho)).
  set (t := Instance CQTag_class ty (length s) (S (length s)) (keys fields)).
  exact (new_instance_outcomes t _ (Obj true fields) empty_object fields
           (lookup_first s _ _) (lookup_second s _ _)
           eq_refl eq_refl eq_refl eq_refl Hd Ho).
Qed.

End Factories.

Ltac run_factory :=
  match goal with
  | |- wire_of (build ?ty ?fields) ?s = _ =>
      rewrite (proj1 (build_outcomes ty fields s eq_refl eq_refl))
  | |- tag_of (build ?ty ?fields) ?s = _ =>
      rewrite (proj2 (build_outcomes ty fields s eq_refl eq_refl))
  end.

Ltac factory_text :=
  run_factory;
  unfold wire, emit, optional_attribute, optional, at_value;
  cbn [List.filter defined is_undefined negb snd fst flat_map ToString];
  repeat rewrite <- app_assoc; rewrite ?app_nil_r;
  cbn [app str List.map list_ascii_of_string];
  reflexivity.

(** X9.  The wire text of the tags of the factories whose parameters are
    all required: the type, then each attribute in the order of the
    object literal. *)
Theorem required_factories_wire_text (s : store) :
  (forall id, wire_of (face id) s
              = Returns (VStr (str "[CQ:face,id=" ++ Number_toString id
                                 ++ str "]"))) /\
  (forall n, wire_of (at_ (QQ n)) s
             = Returns (VStr (str "[CQ:at,qq=" ++ Number_toString n
                                ++ str "]"))) /\
  wire_of (at_ All) s = Returns (VStr (str "[CQ:at,qq=all]")) /\
  (forall ty id,
      wire_of (music ty id) s
      = Returns (VStr (str "[CQ:music,type=" ++ music_type_name ty
                         ++ str ",id=" ++ Number_toString id ++ str "]"))) /\
  (forall id, wire_of (reply id) s
              = Returns (VStr (str "[CQ:reply,id=" ++ Number_toString id
                                 ++ str "]"))) /\
  (forall qq, wire_of (poke qq) s
              = Returns (VStr (str "[CQ:poke,qq=" ++ Number_toString qq
                                 ++ str "]"))) /\
  (forall qq id,
      wire_of (gift qq id) s
      = Returns (VStr (str "[CQ:gift,qq=" ++ Number_toString qq
                         ++ str ",id=" ++ Number_toString id ++ str "]"))) /\
  (forall id, wire_of (nodeId id) s
              = Returns (VStr (str "[CQ:node,id=" ++ Number_toString id
                                 ++ str "]"))) /\
  (forall text, wire_of (tts text) s
                = Returns (VStr (str "[CQ:tts,text=" ++ text ++ str "]"))).
Proof.
  repeat apply conj; intros.
  - unfold face. factory_text.
  - unfold at_. factory_text.
  - unfold at_. factory_text.
  - unfold music. factory_text.
  - unfold reply. factory_text.
  - unfold poke. factory_text.
  - unfold gift. factory_text.
  - unfold nodeId. factory_text.
  - unfold tts. factory_text.
Qed.

Ltac factory_data :=
  run_factory;
  unfold optional_entry, optional;
  cbn [List.filter not_nullish is_nullish negb snd fst app];
  reflexivity.

(** X10.  The wire text of the tags of the factories with optional
    parameters: a parameter that the caller leaves out does not appear
    in the wire text.  [CQ.json] writes the type ["xml"], as [CQ.xml]
    does, and [CQ.musicCustom] the type ["music"] with [type=custom]. *)
Theorem optional_factories_wire_text (s : store) :
  (forall file magic cache proxy timeout,
      wire_of (record file magic cache proxy timeout) s
      = Returns (VStr (str "[CQ:record,file=" ++ file
                         ++ optional_attribute "magic" VBool magic
                         ++ optional_attribute "cache" VBool cache
                         ++ optional_attribute "proxy" VBool proxy
                         ++ optional_attribute "timeout" VNum timeout
                         ++ str "]"))) /\
  (forall url title content image,
      wire_of (share url title content image) s
      = Returns (VStr (str "[CQ:share,url=" ++ url ++ str ",title=" ++ title
                         ++ optional_attribute "content" VStr content
                         ++ optional_attribute "image" VStr image
                         ++ str "]"))) /\
  (forall url audio title content image,
      wire_of (musicCustom url audio title content image) s
      = Returns (VStr (str "[CQ:music,type=custom,url=" ++ url
                         ++ str ",audio=" ++ audio ++ str ",title=" ++ title
                         ++ optional_attribute "content" VStr content
                         ++ optional_attribute "image" VStr image
                         ++ str "]"))) /\
  (forall file ty url cache id c,
      wire_of (image file ty url cache id c) s
      = Returns (VStr (str "[CQ:image,file=" ++ file
                         ++ optional_attribute "type" VStr ty
                         ++ optional_attribute "url" VStr url
                         ++ optional_attribute "cache" VNum cache
                         ++ optional_attribute "id" VNum id
                         ++ optional_attribute "c" VNum c
                         ++ str "]"))) /\
  (forall data resid,
      wire_of (xml data resid) s
      = Returns (VStr (str "[CQ:xml,data=" ++ data
                         ++ optional_attribute "resid" VNum resid
                         ++ str "]"))) /\
  (forall data resid,
      wire_of (json data resid) s
      = Returns (VStr (str "[CQ:xml,data=" ++ data
                         ++ optional_attribute "resid" VNum resid
                         ++ str "]"))) /\
  (forall file minwidth minheight maxwidth maxheight source icon,
      wire_of (cardimage file minwidth minheight maxwidth maxheight
                 source icon) s
      = Returns (VStr (str "[CQ:cardimage,file=" ++ file
                         ++ optional_attribute "minwidth" VNum minwidth
                         ++ optional_attribute "minheight" VNum minheight
                         ++ optional_attribute "maxwidth" VNum maxwidth
                         ++ optional_attribute "maxheight" VNum maxheight
                         ++ optional_attribute "source" VStr source
                         ++ optional_attribute "icon" VStr icon
                         ++ str "]"))).
Proof.
  repeat apply conj.
  - intros file [b1|] [b2|] [b3|] [n|]; unfold record; factory_text.
  - intros url title [c|] [i|]; unfold share; factory_text.
  - intros url audio title [c|] [i|]; unfold musicCustom; factory_text.
  - intros file [ty|] [url|] [n1|] [n2|] [n3|]; unfold image; factory_text.
  - intros data [n|]; unfold xml; factory_text.
  - intros data [n|]; unfold json; factory_text.
  - intros file [n1|] [n2|] [n3|] [n4|] [src|] [ic|]; unfold cardimage;
      factory_text.
Qed.

(** X11.  The structured form ([toTag]) of the tags of the factories
    with optional parameters: the type, and data that hold the required
    attributes and those optional attributes that the caller gave, and
    no entry for a parameter that was left out. *)
Theorem optional_factories_structured_form (s : store) :
  (forall file magic cache proxy timeout,
      tag_of (record file magic cache proxy timeout) s
      = Returns (VStr (str "record"),
                 Some ([(str "file", VStr file)]
                       ++ optional_entry "magic" VBool magic
                       ++ optional_entry "cache" VBool cache
                       ++ optional_entry "proxy" VBool proxy
                       ++ optional_entry "timeout" VNum timeout))) /\
  (forall url title content image,
      tag_of (share url title content image) s
      = Returns (VStr (str "share"),
                 Some ([(str "url", VStr url); (str "title", VStr title)]
                       ++ optional_entry "content" VStr content
                       ++ optional_entry "image" VStr image))) /\
  (forall file ty url cache id c,
      tag_of (image file ty url cache id c) s
      = Returns (VStr (str "image"),
                 Some ([(str "file", VStr file)]
                       ++ optional_entry "type" VStr ty
                       ++ optional_entry "url" VStr url
                       ++ optional_entry "cache" VNum cache
                       ++ optional_entry "id" VNum id
                       ++ optional_entry "c" VNum c))) /\
  (forall data resid,
      tag_of (json data resid) s
      = Returns (VStr (str "xml"),
                 Some ([(str "data", VStr data)]
                       ++ optional_entry "resid" VNum resid))).
Proof.
  repeat apply conj.
  - intros file [b1|] [b2|] [b3|] [n|]; unfold record; factory_data.
  - intros url title [c|] [i|]; unfold share; factory_data.
  - intros file [ty|] [url|] [n1|] [n2|] [n3|]; unfold image; factory_data.
  - intros data [n|]; unfold json; factory_data.
Qed.

(** X12.  [CQ.custom(type, data)] with data whose keys are distinct
    ordinary names (no array index, no [__proto__], no name of a member
    of the tag): the wire text lists the attributes that are not
    [undefined] in the order of the data, and the structured form holds
    those that are neither [undefined] nor [null].  Without data the
    wire text is [[CQ:type]] and the structured data are empty. *)
Theorem custom_tag_forms (ty : jsstring) (s : store) (d : nat) (ob : object) :
  s !! d = Some ob ->
  distinct (keys (props ob)) = true ->
  forallb ordinary_key (keys (props ob)) = true ->
  wire_of (custom ty (Some d)) s = Returns (VStr (wire ty (props ob))) /\
  tag_of (custom ty (Some d)) s
  = Returns (VStr ty, Some (List.filter not_nullish (props ob))) /\
  wire_of (custom ty None) s = Returns (VStr (str "[CQ:" ++ ty ++ str "]")) /\
  tag_of (custom ty None) s = Returns (VStr ty, Some []).
Proof.
  intros Hd Hdis Hord.
  assert (Hgiven :
            wire_of (custom ty (Some d)) s = Returns (VStr (wire ty (props ob))) /\
            tag_of (custom ty (Some d)) s
            = Returns (VStr ty, Some (List.filter not_nullish (props ob)))).
  { unfold wire_of, tag_of, result, content, and_then, custom.
    rewrite !(bind_Returns _ _ _ _ _ (new_CQTag_run _ ty d s ob Hd)).
    exact (new_instance_outcomes
             (Instance CQTag_class ty d (length s) (keys (props ob)))
             (s ++ [empty_object]) ob empty_object (props ob)
             (lookup_old s _ d ob Hd) (lookup_new s _)
             eq_refl eq_refl eq_refl eq_refl Hdis Hord). }
  assert (Hdefault :
            wire_of (custom ty None) s
            = Returns (VStr (str "[CQ:" ++ ty ++ str "]")) /\
            tag_of (custom ty None) s = Returns (VStr ty, Some [])).
  { unfold wire_of, tag_of, result, content, and_then, custom.
    assert (Hrun : (let* d0 := alloc empty_object in
                    new_CQTag CQTag_class ty d0) s
                   = (Returns (Instance CQTag_class ty (length s)
                                 (S (length s)) []),
                      s ++ [empty_object; empty_object])).
    { unfold bind at 1, alloc.
      rewrite (new_CQTag_run _ _ _ _ _ (lookup_new s _)).
      rewrite length_app, <- app_assoc. simpl. now rewrite Nat.add_1_r. }
    rewrite !(bind_Returns _ _ _ _ _ Hrun).
    exact (new_instance_outcomes
             (Instance CQTag_class ty (length s) (S (length s)) [])
             (s ++ [empty_object; empty_object]) empty_object empty_object []
             (lookup_first s _ _) (lookup_second s _ _)
             eq_refl eq_refl eq_refl eq_refl eq_refl eq_refl). }
  tauto.
Qed.

Lemma custom_tag_forms_witness :
  ([face_base; face_override] !! 1%nat = Some face_override /\
   distinct (keys (props face_override)) = true /\
   forallb ordinary_key (keys (props face_override)) = true) /\
  wire_of (custom (str "face") (Some 1%nat)) [face_base; face_override]
  = Returns (VStr (wire (str "face") (props face_override))) /\
  tag_of (custom (str "face") (Some 1%nat)) [face_base; face_override]
  = Returns (VStr (str "face"),
             Some (List.filter not_nullish (props face_override))) /\
  wire_of (custom (str "face") None) [face_base; face_override]
  = Returns (VStr (str "[CQ:" ++ str "face" ++ str "]")) /\
  tag_of (custom (str "face") None) [face_base; face_override]
  = Returns (VStr (str "face"), Some []).
Proof.
  split; [repeat split|].
  exact (custom_tag_forms (str "face") [face_base; face_override] 1
           face_override eq_refl eq_refl eq_refl).
Defined.

(** ** From the wire text to the tag and back *)

Section DecodeEncode.

Lemma first_occurrence c p :
  no_char c p = false -> exists a b, p = a ++ c :: b /\ ~ In c a.
Proof.
  induction p as [|x p IH]; [discriminate|].
  unfold no_char. cbn [forallb]. destruct (N.eqb_spec x c) as [->|Hne].
  - intros _. exists [], p. split; [reflexivity|intros []].
  - cbn [negb andb]. intros H. destruct (IH H) as (a & b & -> & Hno).
    exists (x :: a), b. split; [reflexivity|].
    intros [E|Hin]; [congruence|contradiction].
Qed.

Lemma entry_of_with_equals p :
  no_char 61 p = false ->
  exists k v, entry_of p = (k, VStr v) /\ p = k ++ str "=" ++ v /\ ~ In 61 k.
Proof.
  intros H. destruct (first_occurrence 61 p H) as (a & b & -> & Hno).
  exists a, b. split; [|split; [reflexivity|assumption]].
  now apply (entry_of_equals a b).
Qed.

Lemma emit_entry_of p :
  no_char 61 p = false -> emit (entry_of p) = 44 :: p.
Proof.
  intros H. destruct (entry_of_with_equals p H) as (k & v & -> & -> & _).
  reflexivity.
Qed.

Lemma entry_of_defined p : defined (entry_of p) = true.
Proof. reflexivity. Qed.

Lemma join_split sep cur s :
  flat_map (fun p => sep :: p) (split_char sep cur s) = sep :: cur ++ s.
Proof.
  revert cur. induction s as [|c s IH]; intros cur.
  - reflexivity.
  - cbn [split_char]. destruct (N.eqb_spec c sep) as [->|Hne].
    + cbn [flat_map]. rewrite IH. reflexivity.
    + rewrite IH. now rewrite <- app_assoc.
Qed.

Lemma emit_entries pieces :
  forallb (fun p => negb (no_char 61 p)) pieces = true ->
  flat_map emit (List.filter defined (List.map entry_of pieces))
  = flat_map (fun p => 44 :: p) pieces.
Proof.
  induction pieces as [|p pieces IH]; [reflexivity|].
  cbn [forallb]. intros H. apply andb_true_iff in H. destruct H as [Hp H].
  apply negb_true_iff in Hp.
  cbn [List.map List.filter]. rewrite entry_of_defined. cbn [flat_map].
  now rewrite (emit_entry_of p Hp), (IH H).
Qed.

Lemma faithful_token_wire tok (s : store) (n : nat) :
  s !! n = Some (token_object tok) ->
  s !! S n = Some empty_object ->
  faithful_token tok = true ->
  result (toString (token_instance tok n)) s = Returns (VStr tok).
Proof.
  unfold faithful_token, token_instance, token_object.
  destruct (CQ_TAG_REGEXP_exec tok) as [[name [value|]]|] eqn:E;
    intros Hd Hm Hf.
  - apply CQ_TAG_REGEXP_exec_sound in E.
    destruct E as (_ & _ & _ & _ & ->).
    apply andb_true_iff in Hf. destruct Hf as [Hf Hdis].
    apply andb_true_iff in Hf. destruct Hf as [Heq Hord].
    set (pieces := split_char 44 [] value) in *.
    set (es := List.map entry_of pieces) in *.
    assert (Hkeys : keys es = List.map piece_key pieces)
      by (unfold keys, es, piece_key; now rewrite List.map_map).
    rewrite <- Hkeys in Hdis, Hord.
    rewrite (object_of_ordinary es Hdis Hord) in Hd |- *.
    destruct (new_instance_outcomes
                (Instance CQTag_class name n (S n) (keys (props (Obj true es))))
                s (Obj true es) empty_object es Hd Hm
                eq_refl eq_refl eq_refl eq_refl Hdis Hord) as [Hw _].
    rewrite Hw. cbn [_type]. unfold wire, es.
    rewrite (emit_entries pieces Heq). unfold pieces.
    rewrite join_split. reflexivity.
  - apply CQ_TAG_REGEXP_exec_sound in E. destruct E as (_ & _ & ->).
    destruct (new_instance_outcomes
                (Instance CQTag_class name n (S n) (keys (props empty_object)))
                s empty_object empty_object [] Hd Hm
                eq_refl eq_refl eq_refl eq_refl eq_refl eq_refl) as [Hw _].
    rewrite Hw. reflexivity.
  - unfold result.
    rewrite (toString_outcome (text_instance n) s
               (object_of [(str "text", VStr tok)]) empty_object Hd Hm).
    reflexivity.
Qed.

Lemma faithful_tokens_wire toks (pre post : store) :
  forallb faithful_token toks = true ->
  List.map (fun t => result (toString t) (pre ++ token_objects toks ++ post))
    (token_instances toks (length pre))
  = List.map (fun tok => Returns (VStr tok)) toks.
Proof.
  revert pre. induction toks as [|tok toks IH]; intros pre H; [reflexivity|].
  cbn [forallb] in H. apply andb_true_iff in H. destruct H as [Htok H].
  cbn [token_instances List.map]. f_equal.
  - apply faithful_token_wire; [| |assumption].
    + unfold token_objects. cbn [flat_map]. now apply list_lookup_middle.
    + unfold token_objects. cbn [flat_map].
      change (pre ++ ([token_object tok; empty_object] ++ ?x) ++ post)
        with (pre ++ [token_object tok] ++ empty_object :: (x ++ post)).
      rewrite app_assoc. apply list_lookup_middle.
      rewrite length_app. simpl. lia.
  - specialize (IH (pre ++ [token_object tok; empty_object]) H).
    rewrite length_app in IH. simpl length in IH.
    replace (length pre + 2)%nat with (S (S (length pre))) in IH by lia.
    unfold token_objects in *. cbn [flat_map].
    rewrite <- !app_assoc in IH. rewrite <- !app_assoc. exact IH.
Qed.

End DecodeEncode.

(** X13.  Parsing and serialising gives the message back, token by
    token, when every tag token of the message is one that the two
    functions reproduce: each piece of its attribute part has an [=],
    and the keys are distinct ordinary names.  (Literal text and tags
    without attributes are always reproduced.)  The wire texts of the
    tags, in order, are then the tokens, whose concatenation is the
    message. *)
Theorem parse_then_toString (msg : jsstring) (s : store) :
  forallb faithful_token (split_SPLIT msg) = true ->
  exists ts s',
    parse msg s = (Returns ts, s') /\
    List.map (fun t => result (toString t) s') ts
    = List.map (fun tok => Returns (VStr tok)) (split_SPLIT msg) /\
    concat (split_SPLIT msg) = msg.
Proof.
  intros H. eexists _, _. split; [apply mapM_parseToken|]. split.
  - pose proof (faithful_tokens_wire (split_SPLIT msg) s [] H) as E.
    now rewrite app_nil_r in E.
  - apply split_SPLIT_concat.
Qed.

Lemma parse_then_toString_witness :
  forallb faithful_token (split_SPLIT (str "hi [CQ:at,qq=1][CQ:x] a]b")) = true /\
  exists ts s',
    parse (str "hi [CQ:at,qq=1][CQ:x] a]b") [] = (Returns ts, s') /\
    List.map (fun t => result (toString t) s') ts
    = List.map (fun tok => Returns (VStr tok))
        (split_SPLIT (str "hi [CQ:at,qq=1][CQ:x] a]b")) /\
    concat (split_SPLIT (str "hi [CQ:at,qq=1][CQ:x] a]b"))
    = str "hi [CQ:at,qq=1][CQ:x] a]b".
Proof.
  split; [reflexivity|].
  exact (parse_then_toString (str "hi [CQ:at,qq=1][CQ:x] a]b") [] eq_refl).
Defined.

(** ** From the tag to the wire text and back *)

Section EncodeDecode.

Lemma bracket_free_app a b :
  bracket_free (a ++ b) = bracket_free a && bracket_free b.
Proof.
  unfold bracket_free. rewrite !no_char_app.
  destruct (no_char 91 a), (no_char 91 b), (no_char 93 a), (no_char 93 b);
    reflexivity.
Qed.

Lemma lower_bracket_free ty :
  forallb lower ty = true -> bracket_free ty = true /\ no_char 44 ty = true.
Proof.
  induction ty as [|c ty IH]; [now split|].
  cbn [forallb]. intros H. apply andb_true_iff in H. destruct H as [Hc H].
  destruct (IH H) as [Hb H44]. unfold bracket_free, no_char in *.
  cbn [forallb]. apply andb_true_iff in Hb. destruct Hb as [H91 H93].
  rewrite H91, H93, H44. unfold lower in Hc.
  apply andb_true_iff in Hc. destruct Hc as [Hlo _].
  apply N.leb_le in Hlo.
  assert (E91 : N.eqb c 91 = false) by (apply N.eqb_neq; lia).
  assert (E93 : N.eqb c 93 = false) by (apply N.eqb_neq; lia).
  assert (E44 : N.eqb c 44 = false) by (apply N.eqb_neq; lia).
  now rewrite E91, E93, E44.
Qed.

Lemma existsb_keys_filter k f (es : list (key * value)) :
  existsb (jsstring_eqb k) (keys (List.filter f es)) = true ->
  existsb (jsstring_eqb k) (keys es) = true.
Proof.
  induction es as [|e es IH]; [easy|].
  cbn [List.filter]. destruct (f e); cbn [keys List.map existsb];
    intros H.
  - apply orb_true_iff in H. apply orb_true_iff.
    destruct H as [H|H]; [now left | right; now apply IH].
  - apply orb_true_iff. right. now apply IH.
Qed.

Lemma distinct_filter f (es : list (key * value)) :
  distinct (keys es) = true -> distinct (keys (List.filter f es)) = true.
Proof.
  induction es as [|e es IH]; [easy|].
  cbn [keys List.map distinct]. intros H.
  apply andb_true_iff in H. destruct H as [Hk H].
  cbn [List.filter]. destruct (f e); [|now apply IH].
  cbn [keys List.map distinct]. apply andb_true_iff. split; [|now apply IH].
  apply negb_true_iff. apply negb_true_iff in Hk.
  apply not_true_is_false. intros E.
  apply (existsb_keys_filter (fst e) f es) in E. unfold keys in E.
  congruence.
Qed.

Lemma forallb_keys_filter P f (es : list (key * value)) :
  forallb P (keys es) = true -> forallb P (keys (List.filter f es)) = true.
Proof.
  induction es as [|e es IH]; [easy|].
  cbn [keys List.map forallb]. intros H.
  apply andb_true_iff in H. destruct H as [Hk H].
  cbn [List.filter]. destruct (f e); [|now apply IH].
  cbn [keys List.map forallb]. apply andb_true_iff.
  split; [assumption | now apply IH].
Qed.

Lemma forallb_filter {A} (P f : A -> bool) (l : list A) :
  forallb P l = true -> forallb P (List.filter f l) = true.
Proof.
  induction l as [|x l IH]; [easy|]. cbn [forallb]. intros H.
  apply andb_true_iff in H. destruct H as [Hx H].
  cbn [List.filter]. destruct (f x); [|now apply IH].
  cbn [forallb]. now rewrite Hx, (IH H).
Qed.

Lemma split_char_skip sep cur a rest :
  no_char sep a = true ->
  split_char sep cur (a ++ rest) = split_char sep (cur ++ a) rest.
Proof.
  revert cur. induction a as [|c a IH]; intros cur H.
  - now rewrite app_nil_r.
  - unfold no_char in H. cbn [forallb] in H.
    apply andb_true_iff in H. destruct H as [Hc H].
    apply negb_true_iff in Hc. cbn [app split_char]. rewrite Hc.
    rewrite (IH _ H). now rewrite <- app_assoc.
Qed.

Lemma piece_safe kv :
  key_safe (fst kv) = true -> value_safe (ToString (snd kv)) = true ->
  bracket_free (piece_of kv) = true /\ no_char 44 (piece_of kv) = true.
Proof.
  unfold key_safe, value_safe, piece_of. intros Hk Hv.
  apply andb_true_iff in Hk. destruct Hk as [Hk _].
  apply andb_true_iff in Hk, Hv.
  destruct Hk as [Hkb Hk44], Hv as [Hvb Hv44].
  rewrite !bracket_free_app, !no_char_app, Hkb, Hvb, Hk44, Hv44.
  now split.
Qed.

Lemma split_emitted fs cur :
  forallb key_safe (keys fs) = true ->
  forallb (fun kv => value_safe (ToString (snd kv))) fs = true ->
  split_char 44 cur (flat_map emit fs) = cur :: List.map piece_of fs.
Proof.
  revert cur. induction fs as [|kv fs IH]; intros cur Hk Hv; [reflexivity|].
  cbn [keys List.map forallb] in Hk, Hv.
  apply andb_true_iff in Hk, Hv. destruct Hk as [Hk Hks], Hv as [Hv Hvs].
  destruct (piece_safe kv Hk Hv) as [_ H44].
  cbn [flat_map List.map].
  change (emit kv) with (44 :: piece_of kv). cbn [app split_char].
  rewrite N.eqb_refl. f_equal.
  rewrite (split_char_skip 44 [] (piece_of kv) _ H44). cbn [app].
  now apply IH.
Qed.

Lemma emitted_bracket_free fs :
  forallb key_safe (keys fs) = true ->
  forallb (fun kv => value_safe (ToString (snd kv))) fs = true ->
  bracket_free (flat_map emit fs) = true.
Proof.
  induction fs as [|kv fs IH]; intros Hk Hv; [reflexivity|].
  cbn [keys List.map forallb] in Hk, Hv.
  apply andb_true_iff in Hk, Hv. destruct Hk as [Hk Hks], Hv as [Hv Hvs].
  destruct (piece_safe kv Hk Hv) as [Hb _].
  cbn [flat_map]. change (emit kv) with (str "," ++ piece_of kv).
  now rewrite !bracket_free_app, Hb, (IH Hks Hvs).
Qed.

Lemma entries_of_pieces fs :
  forallb key_safe (keys fs) = true ->
  List.map entry_of (List.map piece_of fs) = List.map stringified fs.
Proof.
  induction fs as [|kv fs IH]; intros Hk; [reflexivity|].
  cbn [keys List.map forallb] in Hk.
  apply andb_true_iff in Hk. destruct Hk as [Hk Hks].
  cbn [List.map]. rewrite (IH Hks). f_equal.
  unfold key_safe in Hk. apply andb_true_iff in Hk. destruct Hk as [_ H61].
  apply no_char_In in H61.
  exact (entry_of_equals (fst kv) (ToString (snd kv)) H61).
Qed.

Lemma keys_stringified fs : keys (List.map stringified fs) = keys fs.
Proof. unfold keys. rewrite List.map_map. reflexivity. Qed.

Lemma no_char_Forall c v : no_char c v = true -> Forall (fun x => x <> c) v.
Proof.
  intros H. apply Forall_forall. intros x Hx ->.
  apply list_elem_of_In in Hx. now apply (proj1 (no_char_In c v) H).
Qed.

Lemma forallb_lower_Forall ty :
  forallb lower ty = true -> Forall (fun c => lower c = true) ty.
Proof.
  intros H. apply Forall_forall. intros x Hx.
  apply list_elem_of_In in Hx. rewrite forallb_forall in H. now apply H.
Qed.

(** The parse of the wire text of attributes that are all defined. *)
Lemma parse_wire ty fs (s : store) :
  ty <> [] -> forallb lower ty = true ->
  distinct (keys fs) = true ->
  forallb ordinary_key (keys fs) = true ->
  forallb key_safe (keys fs) = true ->
  forallb (fun kv => value_safe (ToString (snd kv))) fs = true ->
  parse (str "[CQ:" ++ ty ++ flat_map emit fs ++ str "]") s
  = (Returns [Instance CQTag_class ty (length s) (S (length s)) (keys fs)],
     s ++ [Obj true (List.map stringified fs); empty_object]).
Proof.
  intros Hne Hlow Hdis Hord Hk Hv.
  destruct (lower_bracket_free ty Hlow) as [Htyb _].
  pose proof (emitted_bracket_free fs Hk Hv) as Hfree.
  pose proof (split_emitted fs [] Hk Hv) as Hsplit.
  pose proof (entries_of_pieces fs Hk) as Hents.
  pose proof (object_of_ordinary (List.map stringified fs)) as Hobj.
  rewrite keys_stringified in Hobj. specialize (Hobj Hdis Hord).
  remember (str "[CQ:" ++ ty ++ flat_map emit fs ++ str "]") as w eqn:Ew.
  assert (Hone : split_SPLIT w = [w]).
  { assert (Hw0 : w = str "[" ++ (str "CQ:" ++ ty ++ flat_map emit fs)
                               ++ str "]").
    { rewrite Ew. cbn [app str List.map list_ascii_of_string].
      now rewrite <- app_assoc. }
    rewrite Hw0. apply split_SPLIT_bracketed.
    rewrite !bracket_free_app, Htyb, Hfree. reflexivity. }
  unfold parse. rewrite Hone. cbn [mapM].
  destruct fs as [|kv fs'].
  - assert (Hexec : CQ_TAG_REGEXP_exec w = Some (ty, None)).
    { apply CQ_TAG_REGEXP_exec_complete. split; [assumption|].
      split; [now apply forallb_lower_Forall|]. exact Ew. }
    rewrite (bind_Returns _ _ _ _ _ (parseToken_bare w s ty Hexec)).
    reflexivity.
  - set (value := piece_of kv ++ flat_map emit fs').
    cbn [flat_map] in Ew, Hfree, Hsplit.
    change (emit kv) with (str "," ++ piece_of kv) in Ew, Hfree.
    change (emit kv) with (44 :: piece_of kv) in Hsplit.
    rewrite <- app_assoc in Hfree. fold value in Hfree.
    assert (Hw : w = str "[CQ:" ++ ty ++ str "," ++ value ++ str "]").
    { rewrite Ew. unfold value. now rewrite <- !app_assoc. }
    rewrite bracket_free_app in Hfree. cbn [app split_char] in Hsplit.
    rewrite N.eqb_refl in Hsplit. fold value in Hsplit.
    assert (Hpieces : split_char 44 [] value
                      = List.map piece_of (kv :: fs')) by congruence.
    assert (Hexec : CQ_TAG_REGEXP_exec w = Some (ty, Some value)).
    { apply CQ_TAG_REGEXP_exec_complete. split; [assumption|].
      split; [now apply forallb_lower_Forall|].
      split; [|split; [|exact Hw]].
      - unfold value, piece_of. intros E.
        apply (f_equal (@length char)) in E.
        rewrite !length_app in E. simpl in E. lia.
      - apply no_char_Forall. unfold bracket_free in Hfree.
        apply andb_true_iff in Hfree. destruct Hfree as [_ Hfree].
        now apply andb_true_iff in Hfree. }
    pose proof (parseToken_attributes w s ty value Hexec) as Hrun.
    cbv zeta in Hrun. rewrite Hpieces, Hents, Hobj in Hrun.
    cbn [props] in Hrun. rewrite keys_stringified in Hrun.
    now rewrite (bind_Returns _ _ _ _ _ Hrun).
Qed.

End EncodeDecode.

(** X14. The wire text that [toString] gives for a tag built from a type
    of lower-case letters and attributes with distinct ordinary keys,
    whose keys and rendered values contain none of the delimiters, is
    parsed back to one tag of the same type: it has the attributes that
    were not [undefined], in their order, each with the string of its
    value. *)
Theorem toString_then_parse ty fields (s0 s : store) :
  ty <> [] -> forallb lower ty = true ->
  distinct (keys fields) = true ->
  forallb ordinary_key (keys fields) = true ->
  forallb key_safe (keys fields) = true ->
  forallb (fun kv => value_safe (ToString (snd kv))) fields = true ->
  exists w,
    wire_of (build ty fields) s0 = Returns (VStr w) /\
    parse w s
    = (Returns [Instance CQTag_class ty (length s) (S (length s))
                  (keys (List.filter defined fields))],
       s ++ [Obj true (List.map stringified (List.filter defined fields));
             empty_object]).
Proof.
  intros Hne Hlow Hdis Hord Hk Hv. exists (wire ty fields). split.
  - now apply build_outcomes.
  - unfold wire. apply parse_wire; try assumption.
    + now apply distinct_filter.
    + now apply forallb_keys_filter.
    + now apply forallb_keys_filter.
    + now apply forallb_filter.
Qed.

Lemma toString_then_parse_witness :
  exists w,
    wire_of (build (str "at") [(str "qq", VNum 1); (str "name", VUndefined)])
      [] = Returns (VStr w) /\
    parse w []
    = (Returns [Instance CQTag_class (str "at") 0%nat 1%nat [str "qq"]],
       [Obj true [(str "qq", VStr (str "1"))]; empty_object]).
Proof.
  exact (toString_then_parse (str "at")
           [(str "qq", VNum 1); (str "name", VUndefined)] [] []
           ltac:(discriminate) eq_refl eq_refl eq_refl eq_refl eq_refl).
Defined.

Section EscapedValues.

Lemma escaped_defined kvs :
  List.filter defined (List.map escaped_attribute kvs)
  = List.map escaped_attribute kvs.
Proof.
  induction kvs as [|kv kvs IH]; [reflexivity|].
  cbn [List.map List.filter]. unfold defined at 1. cbn. now rewrite IH.
Qed.

Lemma escaped_stringified kvs :
  List.map stringified (List.map escaped_attribute kvs)
  = List.map escaped_attribute kvs.
Proof. rewrite List.map_map. reflexivity. Qed.

Lemma escaped_keys kvs :
  keys (List.map escaped_attribute kvs) = List.map fst kvs.
Proof. unfold keys. rewrite List.map_map. reflexivity. Qed.

Lemma escaped_safe kvs :
  forallb (fun kv => value_safe (ToString (snd kv)))
    (List.map escaped_attribute kvs) = true.
Proof.
  induction kvs as [|kv kvs IH]; [reflexivity|].
  cbn [List.map forallb]. rewrite IH.
  unfold escaped_attribute at 1. cbn [snd ToString].
  now rewrite escape_value_safe.
Qed.

End EscapedValues.

(** X15. Attribute values that are escaped with [escape (_, true)] go
    through the wire text unharmed, whatever characters they contain:
    the wire text of the tag is parsed back to one tag with the same
    keys and the escaped values, and [unescape] of these gives the
    original values. *)
Theorem escaped_values_round_trip ty (kvs : list (key * jsstring))
        (s : store) :
  ty <> [] -> forallb lower ty = true ->
  distinct (List.map fst kvs) = true ->
  forallb ordinary_key (List.map fst kvs) = true ->
  forallb key_safe (List.map fst kvs) = true ->
  parse (wire ty (List.map escaped_attribute kvs)) s
  = (Returns [Instance CQTag_class ty (length s) (S (length s))
                (List.map fst kvs)],
     s ++ [Obj true (List.map escaped_attribute kvs); empty_object]) /\
  List.map (fun kv => unescape (ToString (snd kv)))
    (List.map escaped_attribute kvs)
  = List.map snd kvs.
Proof.
  intros Hne Hlow Hdis Hord Hk. split.
  - unfold wire. rewrite escaped_defined.
    rewrite <- (escaped_keys kvs) in Hdis, Hord, Hk |- *.
    rewrite <- (escaped_stringified kvs) at 3.
    apply parse_wire; try assumption. apply escaped_safe.
  - rewrite List.map_map. apply List.map_ext. intros kv.
    cbn [escaped_attribute snd ToString]. apply unescape_escape.
Qed.

Lemma escaped_values_round_trip_witness :
  parse (wire (str "share")
           (List.map escaped_attribute
              [(str "title", str "a,b]"); (str "url", str "x?a=1&b=[2]")]))
    []
  = (Returns [Instance CQTag_class (str "share") 0%nat 1%nat
                (List.map fst
                   [(str "title", str "a,b]");
                    (str "url", str "x?a=1&b=[2]")])],
     [] ++ [Obj true
              (List.map escaped_attribute
                 [(str "title", str "a,b]");
                  (str "url", str "x?a=1&b=[2]")]);
            empty_object]) /\
  List.map (fun kv => unescape (ToString (snd kv)))
    (List.map escaped_attribute
       [(str "title", str "a,b]"); (str "url", str "x?a=1&b=[2]")])
  = List.map snd [(str "title", str "a,b]"); (str "url", str "x?a=1&b=[2]")].
Proof.
  exact (escaped_values_round_trip (str "share")
           [(str "title", str "a,b]"); (str "url", str "x?a=1&b=[2]")] []
           ltac:(discriminate) eq_refl eq_refl eq_refl eq_refl).
Defined.

(** ** The attributes of a parsed tag *)

Section ParsedAttributes.

Lemma has_getter_keys c ty d m (ps : list (key * value)) k :
  has_getter (Instance c ty d m (keys ps)) k = has_property k ps.
Proof.
  unfold has_getter. cbn [getters].
  induction ps as [|[k' v'] ps IH]; [reflexivity|].
  cbn [keys List.map existsb has_property fst].
  rewrite (jsstring_eqb_sym k k'). f_equal. exact IH.
Qed.

Lemma parsed_getter tok ty attrs (s : store) :
  CQ_TAG_REGEXP_exec tok = Some (ty, Some attrs) ->
  exists t,
    parseToken tok s
    = (Returns t, s ++ [object_of (token_entries attrs); empty_object]) /\
    _data t = length s /\
    (forall name, has_getter t name = has_property name (token_entries attrs)).
Proof.
  intros Hexec.
  pose proof (parseToken_attributes tok s ty attrs Hexec) as Hrun.
  cbv zeta in Hrun. eexists. split; [exact Hrun|]. split; [reflexivity|].
  intros name. rewrite has_getter_keys. apply object_of_has.
Qed.

Lemma get_run (t : CQTag) (s : store) d k :
  has_getter t (str "_data") = false -> s !! _data t = Some d ->
  get t k s = (Returns (get_property k (props d)), s).
Proof.
  intros H Hd. unfold get, this_data. rewrite H.
  unfold bind at 1. unfold ret at 1.
  now rewrite (bind_Returns _ _ _ _ _ (load_run s _ d Hd)).
Qed.

Lemma call_get_overflow (t : CQTag) (s : store) k :
  has_getter t (str "_data") = true ->
  call_get t k s = (Throws RangeError, s).
Proof.
  intros H. unfold call_get, get, getter, this_data. rewrite H.
  now destruct (has_getter t (str "get")).
Qed.

End ParsedAttributes.

(** X16. On the tag that the parser builds for a tag token with
    attributes, none of them named [_data] or [get], the call
    [get(key)], for a key that an attribute has or that is no member of
    [Object.prototype], returns the value of the last attribute with
    that key, and [undefined] when no attribute has it; the store is
    unchanged.  (For a key that no attribute has and that
    [Object.prototype] has, the base mapping yields the inherited
    member.) *)
Theorem get_after_parse tok ty attrs k (s : store) :
  CQ_TAG_REGEXP_exec tok = Some (ty, Some attrs) ->
  has_property (str "_data") (token_entries attrs) = false ->
  has_property (str "get") (token_entries attrs) = false ->
  has_property k (token_entries attrs) || negb (inherited k) = true ->
  exists t s',
    parseToken tok s = (Returns t, s') /\
    call_get t k s' = (Returns (last_value k (token_entries attrs)), s').
Proof.
  intros Hexec Hdata Hget _.
  destruct (parsed_getter tok ty attrs s Hexec) as (t & Hrun & Hloc & Hg).
  exists t, (s ++ [object_of (token_entries attrs); empty_object]).
  split; [exact Hrun|].
  unfold call_get. rewrite (Hg (str "get")), Hget.
  rewrite <- get_object_of. apply get_run.
  - now rewrite Hg.
  - rewrite Hloc. apply lookup_first.
Qed.

Lemma get_after_parse_witness :
  (exists t s',
      parseToken (str "[CQ:image,file=a,url=b=c,file=d]") []
      = (Returns t, s') /\
      call_get t (str "file") s' = (Returns (VStr (str "d")), s')) /\
  (exists t s',
      parseToken (str "[CQ:image,file=a,url=b=c,file=d]") []
      = (Returns t, s') /\
      call_get t (str "id") s' = (Returns VUndefined, s')).
Proof.
  split.
  - exact (get_after_parse (str "[CQ:image,file=a,url=b=c,file=d]")
             (str "image") (str "file=a,url=b=c,file=d") (str "file") []
             eq_refl eq_refl eq_refl eq_refl).
  - exact (get_after_parse (str "[CQ:image,file=a,url=b=c,file=d]")
             (str "image") (str "file=a,url=b=c,file=d") (str "id") []
             eq_refl eq_refl eq_refl eq_refl).
Defined.

(** X17. A tag token with an attribute named [_data] is parsed to a tag
    that cannot be read: the accessor that the constructor defines for
    that attribute calls itself, and the bodies of [toString] and
    [toTag] and the call [get(key)] all end in a [RangeError]. *)
Theorem data_attribute_breaks_the_tag tok ty attrs k (s : store) :
  CQ_TAG_REGEXP_exec tok = Some (ty, Some attrs) ->
  has_property (str "_data") (token_entries attrs) = true ->
  exists t s',
    parseToken tok s = (Returns t, s') /\
    result (CQTag_toString t) s' = Throws RangeError /\
    result (CQTag_toTag t) s' = Throws RangeError /\
    result (call_get t k) s' = Throws RangeError.
Proof.
  intros Hexec Hdata.
  destruct (parsed_getter tok ty attrs s Hexec) as (t & Hrun & Hloc & Hg).
  exists t, (s ++ [object_of (token_entries attrs); empty_object]).
  split; [exact Hrun|].
  assert (H : has_getter t (str "_data") = true) by now rewrite Hg.
  unfold result. split; [|split].
  - destruct (CQTag_toString_overflow t
                (s ++ [object_of (token_entries attrs); empty_object]) H)
      as (ext & ->).
    reflexivity.
  - now rewrite (CQTag_toTag_overflow t _ H).
  - now rewrite (call_get_overflow t _ k H).
Qed.

Lemma data_attribute_breaks_the_tag_witness :
  exists t s',
    parseToken (str "[CQ:a,_data=1]") [] = (Returns t, s') /\
    result (CQTag_toString t) s' = Throws RangeError /\
    result (CQTag_toTag t) s' = Throws RangeError /\
    result (call_get t (str "x")) s' = Throws RangeError.
Proof.
  exact (data_attribute_breaks_the_tag (str "[CQ:a,_data=1]") (str "a")
           (str "_data=1") (str "x") [] eq_refl eq_refl).
Defined.

(** X18. On the tag parsed from a tag token without an attribute named
    [_data], an attribute named like a method hides the method: the
    calls [toString()], [toTag()] and [get(key)] throw a [TypeError]
    when an attribute has that name, and [modifier(m)] throws a
    [TypeError] when an attribute is named [_modifier]. *)
Theorem method_named_attributes tok ty attrs k m (s : store) :
  CQ_TAG_REGEXP_exec tok = Some (ty, Some attrs) ->
  has_property (str "_data") (token_entries attrs) = false ->
  exists t s',
    parseToken tok s = (Returns t, s') /\
    (has_property (str "toString") (token_entries attrs) = true ->
     result (toString t) s' = Throws TypeError) /\
    (has_property (str "toTag") (token_entries attrs) = true ->
     result (toTag t) s' = Throws TypeError) /\
    (has_property (str "get") (token_entries attrs) = true ->
     result (call_get t k) s' = Throws TypeError) /\
    (has_property (str "_modifier") (token_entries attrs) = true ->
     result (modifier t m) s' = Throws TypeError).
Proof.
  intros Hexec Hdata.
  destruct (parsed_getter tok ty attrs s Hexec) as (t & Hrun & Hloc & Hg).
  exists t, (s ++ [object_of (token_entries attrs); empty_object]).
  split; [exact Hrun|].
  assert (Hd : has_getter t (str "_data") = false) by now rewrite Hg.
  assert (Hl : (s ++ [object_of (token_entries attrs); empty_object])
                 !! _data t = Some (object_of (token_entries attrs)))
    by (rewrite Hloc; apply lookup_first).
  assert (Hhidden : forall A name,
             bind (getter t name) (fun _ => @throw A TypeError)
               (s ++ [object_of (token_entries attrs); empty_object])
             = (Throws TypeError,
                s ++ [object_of (token_entries attrs); empty_object])).
  { intros A name. rewrite (hidden_method_run t _ _ Hl name).
    now rewrite Hd. }
  unfold result. repeat apply conj; intros H.
  - unfold toString. now rewrite Hg, H, Hhidden.
  - unfold toTag. now rewrite Hg, H, Hhidden.
  - unfold call_get. now rewrite Hg, H, Hhidden.
  - unfold modifier. destruct (has_getter t (str "modifier")).
    + now rewrite Hhidden.
    + now rewrite Hg, H.
Qed.

Lemma method_named_attributes_witness :
  exists t s',
    parseToken (str "[CQ:a,toString=1,toTag=2,get=3,_modifier=4]") []
    = (Returns t, s') /\
    (has_property (str "toString")
       (token_entries (str "toString=1,toTag=2,get=3,_modifier=4")) = true ->
     result (toString t) s' = Throws TypeError) /\
    (has_property (str "toTag")
       (token_entries (str "toString=1,toTag=2,get=3,_modifier=4")) = true ->
     result (toTag t) s' = Throws TypeError) /\
    (has_property (str "get")
       (token_entries (str "toString=1,toTag=2,get=3,_modifier=4")) = true ->
     result (call_get t (str "x")) s' = Throws TypeError) /\
    (has_property (str "_modifier")
       (token_entries (str "toString=1,toTag=2,get=3,_modifier=4")) = true ->
     result (modifier t 0%nat) s' = Throws TypeError).
Proof.
  exact (method_named_attributes
           (str "[CQ:a,toString=1,toTag=2,get=3,_modifier=4]") (str "a")
           (str "toString=1,toTag=2,get=3,_modifier=4") (str "x") 0%nat []
           eq_refl eq_refl).
Defined.

(** X19. The pair that the parser computes for a piece of the attribute
    part: the key is the text before the first [=] and holds no [=], and
    the value is all the text after it, whatever it holds; a piece
    without [=] has the empty key and is its own value. *)
Theorem attribute_piece_split (p : jsstring) :
  exists k v,
    entry_of p = (k, VStr v) /\ ~ In 61 k /\
    (no_char 61 p = false /\ p = k ++ str "=" ++ v
     \/ no_char 61 p = true /\ k = [] /\ v = p).
Proof.
  destruct (no_char 61 p) eqn:E.
  - exists [], p. split; [|split; [intros []|right; now repeat split]].
    apply entry_of_no_equals. now apply no_char_In.
  - destruct (entry_of_with_equals p E) as (k & v & He & Hp & Hk).
    exists k, v. split; [assumption|]. split; [assumption|]. now left.
Qed.

(** X20. [CQ.text(t)] takes the text as it is: the structured form of
    the tag has the type [text] and the one attribute [text] with the
    text, not escaped, and [get("text")] returns the text. *)
Theorem text_factory_forms (t : jsstring) (s : store) :
  tag_of (text t) s = Returns (VStr (str "text"), Some [(str "text", VStr t)])
  /\ result (and_then (text t) (fun tg => call_get tg (str "text"))) s
     = Returns (VStr t).
Proof.
  unfold tag_of, content, result, and_then, text.
  rewrite !(bind_Returns _ _ _ _ _ (new_CQText_run t s)).
  set (tg := Instance CQText_class (str "text") (length s) (S (length s))
               [str "text"]).
  set (d := object_of [(str "text", VStr t)]).
  assert (Hd : (s ++ [d; empty_object]) !! _data tg = Some d)
    by apply lookup_first.
  assert (Hm : (s ++ [d; empty_object]) !! _modifier tg = Some empty_object)
    by apply lookup_second.
  split.
  - pose proof (toTag_outcome tg _ d empty_object Hd Hm) as H.
    unfold content in H. rewrite H.
    destruct (ordinary_outcomes tg d empty_object [(str "text", VStr t)]
                eq_refl eq_refl eq_refl eq_refl eq_refl)
      as (_ & Hst & _ & HtoTag).
    rewrite HtoTag, Hst. reflexivity.
  - unfold call_get.
    change (has_getter tg (str "get")) with false. cbv iota.
    now rewrite (get_run tg _ d (str "text") eq_refl Hd).
Qed.
